(** * goKeyValueStore: a key-value store with TTL and an optional file mirror

    Shallow embedding of [keyValueStore.go] in its two revisions:

    - the persistent store (struct [KeyValueStore] with a [cacheFolder],
      [newNode], [Set], [saveInCache], [Get], [Delete], [deleteInCache],
      [getFileName], [Length], [init], [clean], [nodeIsExpired]);
    - the earlier in-memory store (module [InMemory] below), which has the
      same operations without the file mirror.

    Conventions of the embedding.

    - Go's [int64] and [int] are [Z] with the wrap-around written out
      ([wrap]); the width of [int] is a parameter ([Arch]).
    - [time.Now()] is an argument [now] of every operation that reads the
      clock: an instant in nanoseconds since the Unix epoch.  The readings
      taken inside one call are identified.
    - The mutex is not modelled: every operation is the body of its
      critical section, run to completion.
    - The operating system is a small model of one file tree ([FS]); the
      packages [encoding/json], [crypto/sha256] and [encoding/hex] are
      modelled after their documentation. *)

From Stdlib Require Import ZArith Lia SpecFloat Ascii String.
From stdpp Require Import gmap strings list fin_maps sorting.

Local Open Scope Z_scope.
#[local] Set Warnings "-register-all".

(** ** Machine integers *)

(** Two's complement reduction of [z] to [bits] bits. *)
Definition wrap (bits z : Z) : Z :=
  (z + 2 ^ (bits - 1)) mod 2 ^ bits - 2 ^ (bits - 1).

(** The width of Go's [int] depends on the platform. *)
Inductive Arch := Arch32 | Arch64.

Definition intSize (a : Arch) : Z :=
  match a with Arch32 => 32 | Arch64 => 64 end.

(** [math.MaxInt] *)
Definition math_MaxInt (a : Arch) : Z := 2 ^ (intSize a - 1) - 1.

(** The conversion [int(x)] of an [int64]. *)
Definition to_int (a : Arch) (x : Z) : Z := wrap (intSize a) x.

Definition int64_min : Z := - 2 ^ 63.
Definition int64_max : Z := 2 ^ 63 - 1.
Definition in_int64 (z : Z) : bool := (int64_min <=? z) && (z <=? int64_max).

(** ** Package [time] *)

(** An instant: nanoseconds since the Unix epoch. *)
Definition Time := Z.
(** A [time.Duration] is an [int64] count of nanoseconds. *)
Definition Duration := Z.

Definition Millisecond : Duration := 1000000.

(** [time.Duration(ttl) * time.Millisecond]: an [int64] product. *)
Definition Duration_mul (a b : Duration) : Duration := wrap 64 (a * b).

(** [t.Add(d)] *)
Definition Time_Add (t : Time) (d : Duration) : Time := t + d.

(** [t.UnixMilli()]: the instant in whole milliseconds, rounded down. *)
Definition UnixMilli (t : Time) : Z := t / 1000000.

(** ** Errors *)

Inductive error :=
| ErrNotExist            (* fs.ErrNotExist *)
| ErrPermission          (* fs.ErrPermission *)
| UnsupportedTypeError   (* json: unsupported type *)
| UnsupportedValueError  (* json: unsupported value (NaN, infinities) *)
| SyntaxError            (* json: the bytes are not a JSON text *)
| UnmarshalTypeError.    (* json: a value does not fit the Go type *)

Global Instance error_eq_dec : EqDecision error.
Proof. solve_decision. Defined.

(** [os.IsNotExist] *)
Definition os_IsNotExist (e : error) : bool :=
  match e with ErrNotExist => true | _ => false end.

(** ** Dynamic values: what an [any] can hold *)

(** A [float64] is a binary64 number in the Standard Library's
    specification of IEEE 754. *)
Definition float64 := spec_float.

(** The values a caller can pass as [value any], by dynamic type: [nil],
    [bool], the integer types, [float64], [string], slices, maps with
    string keys, structs with exported fields, and (standing for the types
    [encoding/json] cannot encode) channels. *)
Inductive any :=
| Nil
| Bool (b : bool)
| Int (n : Z)
| Float64 (f : float64)
| Str (s : string)
| Slice (elems : list any)
| Map (entries : list (string * any))
| Struct (fields : list (string * any))
| Chan.

(** ** Entries *)

(** A node is a key-value pair with a deleteTimestamp. *)
Record node := mkNode {
  Key : string;
  Value : any;
  DeleteTimestamp : Z
}.

Section Node.
Variable arch : Arch.

(** [newNode] creates a new node with a key, value, and TTL. *)
Definition newNode (now : Time) (key : string) (value : any) (ttl : Z) : node :=
  let ttl := if ttl =? 0 then math_MaxInt arch else ttl in
  let timestamp := UnixMilli (Time_Add now (Duration_mul ttl Millisecond)) in
  {| Key := key; Value := value; DeleteTimestamp := timestamp |}.
End Node.

(** [nodeIsExpired] returns true if a node is expired. *)
Definition nodeIsExpired (now : Time) (n : node) : bool :=
  UnixMilli now >? DeleteTimestamp n.

(** ** Package [encoding/json], after its documentation *)

Module json.

(** *** Strings: coercion to valid UTF-8 *)

Definition byte_val (c : ascii) : Z := Z.of_N (N_of_ascii c).

Definition between (lo hi b : Z) : bool := (lo <=? b) && (b <=? hi).

(** A continuation byte. *)
Definition is_cont (c : ascii) : bool := between 0x80 0xBF (byte_val c).

(** The range the second byte of a sequence must lie in, by first byte
    (the table of [utf8.DecodeRuneInString]). *)
Definition second_ok (b0 : Z) (c1 : ascii) : bool :=
  let b1 := byte_val c1 in
  if b0 =? 0xE0 then between 0xA0 0xBF b1
  else if b0 =? 0xED then between 0x80 0x9F b1
  else if b0 =? 0xF0 then between 0x90 0xBF b1
  else if b0 =? 0xF4 then between 0x80 0x8F b1
  else between 0x80 0xBF b1.

(** The number of bytes that follow the first byte of the rune at the
    head of [s], or [None] when [s] does not start with a well-formed
    rune ([utf8.DecodeRuneInString] returns [RuneError] with width 1). *)
Definition rune_tail (s : string) : option nat :=
  match s with
  | EmptyString => None
  | String c0 r =>
      let b0 := byte_val c0 in
      if b0 <? 0x80 then Some 0%nat
      else if between 0xC2 0xDF b0 then
        match r with
        | String c1 _ => if second_ok b0 c1 then Some 1%nat else None
        | _ => None
        end
      else if between 0xE0 0xEF b0 then
        match r with
        | String c1 (String c2 _) =>
            if second_ok b0 c1 && is_cont c2 then Some 2%nat else None
        | _ => None
        end
      else if between 0xF0 0xF4 b0 then
        match r with
        | String c1 (String c2 (String c3 _)) =>
            if second_ok b0 c1 && is_cont c2 && is_cont c3
            then Some 3%nat else None
        | _ => None
        end
      else None
  end.

(** U+FFFD, the replacement character, in UTF-8. *)
Definition replacement : string :=
  String (ascii_of_N 0xEF) (String (ascii_of_N 0xBF)
    (String (ascii_of_N 0xBD) EmptyString)).

(** What a string becomes when it is encoded as a JSON string and
    decoded again: every byte that does not belong to a well-formed
    rune is replaced by U+FFFD.  [copy] counts the bytes of the current
    rune still to be copied. *)
Fixpoint coerce (copy : nat) (s : string) : string :=
  match s with
  | EmptyString => EmptyString
  | String c r =>
      match copy with
      | S k => String c (coerce k r)
      | O =>
          match rune_tail s with
          | Some k => String c (coerce k r)
          | None => replacement +:+ coerce O r
          end
      end
  end.

Definition toValidUTF8 (s : string) : string := coerce O s.

(** *** Numbers *)

(** A JSON number literal: an integer literal, the literal [-0], or a
    literal with a fraction or an exponent, which is identified with the
    [float64] it denotes. *)
Inductive number :=
| Integer (z : Z)
| NegZero
| Decimal (f : float64).

(** The least magnitude that rounds to an infinity: the largest
    [float64] plus half a unit in its last place. *)
Definition overflow_threshold : Z := 2 ^ 1024 - 2 ^ 970.

(** [strconv.ParseFloat(lit, 64)]: the nearest [float64]; [None] when
    the value is out of range. *)
Definition ParseFloat (n : number) : option float64 :=
  match n with
  | Integer z =>
      if Z.abs z <? overflow_threshold
      then Some (binary_normalize 53 1024 z 0 false)
      else None
  | NegZero => Some (S754_zero true)
  | Decimal f => Some f
  end.

(** [strconv.ParseInt(lit, 10, 64)] *)
Definition ParseInt (n : number) : option Z :=
  match n with
  | Integer z => if in_int64 z then Some z else None
  | NegZero => Some 0
  | Decimal _ => None
  end.

(** The literal the encoder writes for a [float64]: format ['f'] with
    the fewest digits when [1e-6 <= |f| < 1e21], which for an integral
    value is an integer literal; format ['e'] otherwise; an error for
    NaN and the infinities. *)
Definition FormatFloat (f : float64) : option number :=
  match f with
  | S754_zero false => Some (Integer 0)
  | S754_zero true => Some NegZero
  | S754_infinity _ | S754_nan => None
  | S754_finite s m e =>
      let sign (z : Z) := if s then - z else z in
      if 0 <=? e then
        let v := Z.pos m * 2 ^ e in
        if v <? 10 ^ 21 then Some (Integer (sign v)) else Some (Decimal f)
      else if (Z.pos m mod 2 ^ (- e) =? 0)
              && (Z.pos m / 2 ^ (- e) <? 10 ^ 21)
      then Some (Integer (sign (Z.pos m / 2 ^ (- e))))
      else Some (Decimal f)
  end.

(** *** JSON values *)

(** A JSON text, by the value it spells.  A string is held decoded. *)
Inductive value :=
| Null
| Boolean (b : bool)
| Number (n : number)
| String_ (s : string)
| Array (elems : list value)
| Object (members : list (string * value)).

(** The content of a file: a JSON text or anything else. *)
Inductive bytes :=
| Text (j : value)
| Garbage (raw : string).

(** *** Encoding *)

(** Order of the keys of a map in the output (sorted as strings). *)
Definition key_le {A} (x y : string * A) : Prop := String.leb x.1 y.1 = true.

Global Instance key_le_dec {A} (x y : string * A) : Decision (key_le x y).
Proof. unfold key_le. apply _. Defined.

(** The results of a list of encodings or decodings, or the first
    error. *)
Definition mapM {A B} (f : A -> error + B) : list A -> error + list B :=
  fix go (l : list A) : error + list B :=
    match l with
    | [] => inr []
    | x :: r =>
        match f x with
        | inl e => inl e
        | inr y =>
            match go r with
            | inl e => inl e
            | inr ys => inr (y :: ys)
            end
        end
    end.

Definition sequence {A} (l : list (string * (error + A))) : error + list (string * A) :=
  mapM (fun p : string * (error + A) =>
          match p.2 with
          | inl e => inl e
          | inr a => inr (p.1, a)
          end) l.

(** The encoding of a value held in an interface.  The entries of a map
    are written in the order of their keys, the fields of a struct in
    the order of their declaration. *)
Fixpoint marshal_any (v : any) : error + value :=
  match v with
  | Nil => inr Null
  | Bool b => inr (Boolean b)
  | Int n => inr (Number (Integer n))
  | Float64 f =>
      match FormatFloat f with
      | Some n => inr (Number n)
      | None => inl UnsupportedValueError
      end
  | Str s => inr (String_ (toValidUTF8 s))
  | Slice elems =>
      match mapM marshal_any elems with
      | inl e => inl e
      | inr js => inr (Array js)
      end
  | Map entries =>
      match sequence (merge_sort key_le
                        (map (fun p : string * any => (p.1, marshal_any p.2)) entries)) with
      | inl e => inl e
      | inr ms => inr (Object (map (fun p : string * value => (toValidUTF8 p.1, p.2)) ms))
      end
  | Struct fields =>
      match sequence (map (fun p : string * any => (p.1, marshal_any p.2)) fields) with
      | inl e => inl e
      | inr ms => inr (Object ms)
      end
  | Chan => inl UnsupportedTypeError
  end.

(** [json.Marshal(node)]: the three tagged fields, in declaration
    order. *)
Definition Marshal (n : node) : error + bytes :=
  match marshal_any (Value n) with
  | inl e => inl e
  | inr j =>
      inr (Text (Object [("key"%string, String_ (toValidUTF8 (Key n)));
                         ("value"%string, j);
                         ("deleteTimestamp"%string,
                           Number (Integer (DeleteTimestamp n)))]))
  end.

(** *** Decoding *)

(** Decoding into an interface value stores one of [nil], [bool],
    [float64], [string], [[]any], [map[string]any].  Of a name that
    occurs twice in an object the last occurrence is kept. *)
Fixpoint unmarshal_any (j : value) : error + any :=
  match j with
  | Null => inr Nil
  | Boolean b => inr (Bool b)
  | Number n =>
      match ParseFloat n with
      | Some f => inr (Float64 f)
      | None => inl UnmarshalTypeError
      end
  | String_ s => inr (Str s)
  | Array elems =>
      match mapM unmarshal_any elems with
      | inl e => inl e
      | inr vs => inr (Slice vs)
      end
  | Object members =>
      match sequence (map (fun p : string * value => (p.1, unmarshal_any p.2)) members) with
      | inl e => inl e
      | inr es =>
          inr (Map (map_to_list (list_to_map (reverse es) : gmap string any)))
      end
  end.

(** Field names are matched without regard to (ASCII) case. *)
Definition upper (c : ascii) : ascii :=
  let b := byte_val c in
  if between 0x61 0x7A b then ascii_of_N (Z.to_N (b - 0x20)) else c.

Fixpoint foldName (s : string) : string :=
  match s with
  | EmptyString => EmptyString
  | String c r => String (upper c) (foldName r)
  end.

(** One member of the object, stored into the field it names; members
    that name no field are skipped, [null] leaves a string or an
    integer field as it is. *)
Definition set_field (n : node) (name : string) (j : value) : error + node :=
  if String.eqb (foldName name) "KEY" then
    match j with
    | Null => inr n
    | String_ s => inr (mkNode s (Value n) (DeleteTimestamp n))
    | _ => inl UnmarshalTypeError
    end
  else if String.eqb (foldName name) "VALUE" then
    match unmarshal_any j with
    | inl e => inl e
    | inr v => inr (mkNode (Key n) v (DeleteTimestamp n))
    end
  else if String.eqb (foldName name) "DELETETIMESTAMP" then
    match j with
    | Null => inr n
    | Number lit =>
        match ParseInt lit with
        | Some z => inr (mkNode (Key n) (Value n) z)
        | None => inl UnmarshalTypeError
        end
    | _ => inl UnmarshalTypeError
    end
  else inr n.

Fixpoint set_fields (n : node) (members : list (string * value)) : error + node :=
  match members with
  | [] => inr n
  | (name, j) :: r =>
      match set_field n name j with
      | inl e => inl e
      | inr n' => set_fields n' r
      end
  end.

(** [var node node; err = json.Unmarshal(fileData, &node)]: the decoded
    node, starting from the zero value. *)
Definition Unmarshal (data : bytes) : error + node :=
  match data with
  | Garbage _ => inl SyntaxError
  | Text Null => inr (mkNode "" Nil 0)
  | Text (Object members) => set_fields (mkNode "" Nil 0) members
  | Text _ => inl UnmarshalTypeError
  end.

End json.

(** ** Packages [crypto/sha256] and [encoding/hex] *)

Module sha256.

Definition mask32 (x : Z) : Z := x mod 2 ^ 32.
Definition rotr (n x : Z) : Z :=
  Z.lor (Z.shiftr x n) (mask32 (Z.shiftl x (32 - n))).
Definition xor3 (a b c : Z) : Z := Z.lxor (Z.lxor a b) c.

Definition Ch (x y z : Z) : Z :=
  Z.lxor (Z.land x y) (Z.land (mask32 (Z.lnot x)) z).
Definition Maj (x y z : Z) : Z :=
  xor3 (Z.land x y) (Z.land x z) (Z.land y z).
Definition bsig0 (x : Z) : Z := xor3 (rotr 2 x) (rotr 13 x) (rotr 22 x).
Definition bsig1 (x : Z) : Z := xor3 (rotr 6 x) (rotr 11 x) (rotr 25 x).
Definition ssig0 (x : Z) : Z := xor3 (rotr 7 x) (rotr 18 x) (Z.shiftr x 3).
Definition ssig1 (x : Z) : Z := xor3 (rotr 17 x) (rotr 19 x) (Z.shiftr x 10).

(** The constants of the standard are taken from the first 64 primes:
    the initial hash value from the fractional parts of the square roots
    of the first eight, the round constants from the fractional parts of
    the cube roots of all of them, 32 bits each. *)
Definition is_prime (n : Z) : bool :=
  forallb (fun d => negb (n mod d =? 0)) (seqZ 2 (n - 2)).

Definition primes : list Z := filter (fun n => is_prime n = true) (seqZ 2 310).

(** The integer cube root of a number below [2 ^ 120], bit by bit. *)
Definition icbrt (n : Z) : Z :=
  fold_left (fun r i => let c := r + 2 ^ i in if c * c * c <=? n then c else r)
            (reverse (seqZ 0 40)) 0.

Definition K : list Z :=
  Eval vm_compute in map (fun p => mask32 (icbrt (p * 2 ^ 96))) primes.

Definition H0 : list Z :=
  Eval vm_compute in map (fun p => mask32 (Z.sqrt (p * 2 ^ 64))) (take 8 primes).

(** Big-endian bytes of a number, [n] of them. *)
Fixpoint be_bytes (n : nat) (x : Z) : list Z :=
  match n with
  | O => []
  | S k => (Z.shiftr x (8 * Z.of_nat k)) mod 256 :: be_bytes k x
  end.

Definition be_word (bs : list Z) : Z :=
  fold_left (fun acc b => acc * 256 + b) bs 0.

(** The message followed by the bit 1, zeros, and its length in bits. *)
Definition pad (msg : list Z) : list Z :=
  let len := Z.of_nat (length msg) in
  msg ++ [0x80] ++ repeat 0 (Z.to_nat ((55 - len) mod 64))
      ++ be_bytes 8 (8 * len).

(** Consecutive chunks of [size] elements ([count] of them). *)
Fixpoint chunks {A} (count size : nat) (l : list A) : list (list A) :=
  match count with
  | O => []
  | S k => take size l :: chunks k size (drop size l)
  end.

(** The message schedule, latest word first. *)
Fixpoint schedule (n : nat) (w : list Z) : list Z :=
  match n with
  | O => w
  | S k =>
      let x := mask32 (ssig1 (nth 1 w 0) + nth 6 w 0
                       + ssig0 (nth 14 w 0) + nth 15 w 0) in
      schedule k (x :: w)
  end.

Definition round (st : list Z) (kw : Z * Z) : list Z :=
  match st with
  | [a; b; c; d; e; f; g; h] =>
      let t1 := h + bsig1 e + Ch e f g + kw.1 + kw.2 in
      let t2 := bsig0 a + Maj a b c in
      [mask32 (t1 + t2); a; b; c; mask32 (d + t1); e; f; g]
  | _ => st
  end.

Definition compress (h : list Z) (block : list Z) : list Z :=
  let w := reverse (schedule 48 (reverse (map be_word (chunks 16 4 block)))) in
  let st := fold_left round (combine K w) h in
  map (fun p => mask32 (p.1 + p.2)) (combine h st).

Definition bytes_of_string (s : string) : list Z :=
  map (fun c => Z.of_N (N_of_ascii c)) (list_ascii_of_string s).

(** [sha256.Sum256([]byte(key))]: the 32 bytes of the digest. *)
Definition Sum256 (s : string) : list Z :=
  let p := pad (bytes_of_string s) in
  let h := fold_left compress (chunks (length p / 64) 64 p) H0 in
  flat_map (be_bytes 4) h.

End sha256.

Module hex.

Definition digit (d : Z) : ascii :=
  ascii_of_N (Z.to_N (if d <? 10 then 48 + d else 87 + d)).

(** [hex.EncodeToString]: two lower-case digits per byte. *)
Fixpoint EncodeToString (bs : list Z) : string :=
  match bs with
  | [] => EmptyString
  | b :: r => String (digit (b / 16)) (String (digit (b mod 16)) (EncodeToString r))
  end.

End hex.

(** ** Paths and files *)

(** [filepath.Join(dir, name)] for a folder path that is already clean
    (no trailing separator, no [.] or [..] elements). *)
Definition filepath_Join (dir name : string) : string := dir +:+ "/" +:+ name.

(** [strings.HasSuffix] *)
Definition HasSuffix (s suffix : string) : bool :=
  let n := String.length s in
  let m := String.length suffix in
  (m <=? n)%nat && String.eqb (substring (n - m) m s) suffix.

(** [s] without the prefix [p], when it starts with it. *)
Fixpoint strip_prefix (p s : string) : option string :=
  match p, s with
  | EmptyString, _ => Some s
  | String a p', String b s' => if Ascii.eqb a b then strip_prefix p' s' else None
  | _, _ => None
  end.

(** Whether [name] is a single path element. *)
Fixpoint is_base_name (name : string) : bool :=
  match name with
  | EmptyString => true
  | String c r => negb (Ascii.eqb c "/") && is_base_name r
  end.

(** The file system: the regular files by path, and the paths on which
    the process is denied every operation. *)
Record FS := mkFS {
  files : gmap string json.bytes;
  denied : gset string
}.

Definition string_le (x y : string) : Prop := String.leb x y = true.

Global Instance string_le_dec (x y : string) : Decision (string_le x y).
Proof. unfold string_le. apply _. Defined.

(** [os.MkdirAll(path, 0700)]; directories are implicit in [files]. *)
Definition os_MkdirAll (path : string) (fs : FS) : option error * FS :=
  if decide (path ∈ denied fs) then (Some ErrPermission, fs) else (None, fs).

(** [os.ReadDir(dir)]: the names of the directory entries, sorted. *)
Definition os_ReadDir (dir : string) (fs : FS) : error + list string :=
  if decide (dir ∈ denied fs) then inl ErrPermission
  else
    inr (merge_sort string_le
           (omap (fun p : string * json.bytes =>
                    match strip_prefix (dir +:+ "/") p.1 with
                    | Some name =>
                        if is_base_name name && negb (String.eqb name "")
                        then Some name else None
                    | None => None
                    end)
                 (map_to_list (files fs)))).

(** [os.ReadFile(path)] *)
Definition os_ReadFile (path : string) (fs : FS) : error + json.bytes :=
  match files fs !! path with
  | None => inl ErrNotExist
  | Some content =>
      if decide (path ∈ denied fs) then inl ErrPermission else inr content
  end.

(** [os.WriteFile(path, data, 0600)]: creates or replaces the file. *)
Definition os_WriteFile (path : string) (content : json.bytes) (fs : FS)
  : option error * FS :=
  if decide (path ∈ denied fs) then (Some ErrPermission, fs)
  else (None, mkFS (<[path := content]> (files fs)) (denied fs)).

(** [os.Remove(path)] *)
Definition os_Remove (path : string) (fs : FS) : option error * FS :=
  match files fs !! path with
  | None => (Some ErrNotExist, fs)
  | Some _ =>
      if decide (path ∈ denied fs) then (Some ErrPermission, fs)
      else (None, mkFS (delete path (files fs)) (denied fs))
  end.

(** ** State-passing programs *)

(** A program over a state [S] that returns an [A]. *)
Definition M (S A : Type) : Type := S -> A * S.

Definition ret {S A} (a : A) : M S A := fun s => (a, s).

Definition bind {S A B} (m : M S A) (k : A -> M S B) : M S B :=
  fun s => let (a, s') := m s in k a s'.

Definition gets {S A} (f : S -> A) : M S A := fun s => (f s, s).

Definition modify {S} (f : S -> S) : M S unit := fun s => (tt, f s).

Declare Scope prog_scope.
Delimit Scope prog_scope with prog.
Notation "'let*' x ':=' m 'in' k" := (bind m (fun x => k))
  (at level 10, x name, m at level 100, k at level 200) : prog_scope.

(** The result of a Go map index expression [val, ok := m[key]]. *)
Definition index {V} (zero : V) (m : gmap string V) (key : string) : V * bool :=
  match m !! key with
  | Some v => (v, true)
  | None => (zero, false)
  end.

(** What the callers of the store observe. *)
Inductive call :=
| CallSet (key : string) (value : any) (ttl : Z)
| CallGet (key : string)
| CallDelete (key : string)
| CallLength
| Sweep (visit : list string).     (* one pass of the background [clean] *)

Inductive reply :=
| RSet (err : option error)
| RGet (value : any) (found : bool)
| RDelete (err : option error)
| RLength (n : Z)
| RSweep
| RPanic (e : error).

(** ** The persistent store *)

(** A KeyValueStore is a simple key-value store that supports setting a
    key-value pair with a time-to-live (TTL) in milliseconds, getting a
    value by key, deleting a key, and getting the length of the store.
    (The lock [mu] and the sleep interval [cleanTimeout] play no part in
    the sequential model.) *)
Record KeyValueStore := mkStore {
  data : gmap string node;
  cacheFolder : string
}.

(** The store together with the file system it mirrors to. *)
Record World := mkWorld {
  store : KeyValueStore;
  disk : FS
}.

(** How a call ends: it returns, or the goroutine panics. *)
Inductive outcome (A : Type) :=
| Returned (a : A) (w : World)
| Panicked (e : error) (w : World).
Arguments Returned {A} a w.
Arguments Panicked {A} e w.

Definition final {A} (o : outcome A) : World :=
  match o with Returned _ w => w | Panicked _ w => w end.

Definition set_data (f : gmap string node -> gmap string node) : M World unit :=
  modify (fun w => mkWorld (mkStore (f (data (store w))) (cacheFolder (store w))) (disk w)).

(** A call into package [os]. *)
Definition os {A} (f : FS -> A * FS) : M World A :=
  fun w => let (a, fs) := f (disk w) in (a, mkWorld (store w) fs).

Definition os_read {A} (f : FS -> A) : M World A := gets (fun w => f (disk w)).

Section Store.
Variable arch : Arch.

Local Open Scope prog_scope.

(** [getFileName] returns the file name for a key in the cache folder. *)
Definition getFileName (key : string) : M World (string * option error) :=
  let* folder := gets (fun w => cacheFolder (store w)) in
  let sum := sha256.Sum256 key in
  ret (filepath_Join folder (hex.EncodeToString sum +:+ ".store.json"), None).

(** [saveInCache] saves a node in the cache folder. *)
Definition saveInCache (n : node) : M World (option error) :=
  let* folder := gets (fun w => cacheFolder (store w)) in
  if String.eqb folder "" then ret None
  else
    match json.Marshal n with
    | inl err => ret (Some err)
    | inr content =>
        let* r := getFileName (Key n) in
        match r with
        | (_, Some err) => ret (Some err)
        | (fileName, None) => os (os_WriteFile fileName content)
        end
    end.

(** [Set] sets a key-value pair with a TTL in milliseconds. *)
Definition Set_ (now : Time) (key : string) (value : any) (ttl : Z)
  : M World (option error) :=
  let n := newNode arch now key value ttl in
  let* _ := set_data (insert key n) in
  let* err := saveInCache n in
  match err with
  | Some e => ret (Some e)
  | None => ret None
  end.

(** [Get] gets a value by key.  If the key does not exist, the second
    return value is false. *)
Definition Get (now : Time) (key : string) : M World (any * bool) :=
  let* r := gets (fun w => index (mkNode "" Nil 0) (data (store w)) key) in
  let (val, ok) := r : node * bool in
  if negb ok || nodeIsExpired now val then ret (Nil, false)
  else ret (Value val, ok).

(** [deleteInCache] deletes a key from the cache folder. *)
Definition deleteInCache (key : string) : M World (option error) :=
  let* folder := gets (fun w => cacheFolder (store w)) in
  if String.eqb folder "" then ret None
  else
    let* r := getFileName key in
    match r with
    | (_, Some err) => ret (Some err)
    | (fileName, None) =>
        let* err := os (os_Remove fileName) in
        match err with
        | Some e => if os_IsNotExist e then ret None else ret (Some e)
        | None => ret None
        end
    end.

(** [Delete] deletes a key.  If the key does not exist, this function
    does nothing. *)
Definition Delete (key : string) : M World (option error) :=
  let* _ := set_data (delete key) in
  deleteInCache key.

(** [Length] returns the number of key-value pairs in the store. *)
Definition Length (now : Time) : M World Z :=
  let* d := gets (fun w => data (store w)) in
  ret (map_fold (fun (_ : string) (n : node) (counter : Z) =>
                   if negb (nodeIsExpired now n) then counter + 1 else counter)
                0 d).

(** The body of the loop of [init] for one directory entry; [Some err]
    leaves the loop and returns [err]. *)
Definition init_file (now : Time) (name : string) : M World (option error) :=
  if negb (HasSuffix name ".store.json") then ret None
  else
    let* folder := gets (fun w => cacheFolder (store w)) in
    let* r := os_read (os_ReadFile (filepath_Join folder name)) in
    match r with
    | inl err => ret (Some err)
    | inr fileData =>
        match json.Unmarshal fileData with
        | inl err => ret (Some err)
        | inr n =>
            let now_ms := UnixMilli now in
            let timeLeft := wrap 64 (DeleteTimestamp n - now_ms) in
            let timeLeft := if timeLeft <? 0 then 1 else timeLeft in
            let* _ := Set_ now (Key n) (Value n) (to_int arch timeLeft) in
            ret None
        end
    end.

Fixpoint init_files (now : Time) (entries : list string) : M World (option error) :=
  match entries with
  | [] => ret None
  | file :: rest =>
      let* err := init_file now file in
      match err with
      | Some e => ret (Some e)
      | None => init_files now rest
      end
  end.

(** [init] initializes the KeyValueStore by loading existing key-value
    pairs from the cache folder. *)
Definition init (now : Time) : M World (option error) :=
  let* folder := gets (fun w => cacheFolder (store w)) in
  if String.eqb folder "" then ret None
  else
    let* err := os (os_MkdirAll folder) in
    match err with
    | Some e => ret (Some e)
    | None =>
        let* r := os_read (os_ReadDir folder) in
        match r with
        | inl e => ret (Some e)
        | inr entries => init_files now entries
        end
    end.

(** One pass of the loop of [clean] over the map, after the sleep:
    [visit] is the order in which [range d.data] produces the keys.  A
    key that is no longer in the map when its turn comes is not
    produced. *)
Fixpoint clean_range (now : Time) (visit : list string) (w : World) : outcome unit :=
  match visit with
  | [] => Returned tt w
  | key :: rest =>
      match data (store w) !! key with
      | None => clean_range now rest w
      | Some n =>
          if nodeIsExpired now n then
            let (_, w1) := set_data (delete key) w in
            let (err, w2) := deleteInCache key w1 in
            match err with
            | Some e => Panicked e w2           (* this should never happen *)
            | None => clean_range now rest w2
            end
          else clean_range now rest w
      end
  end.

(** [clean] deletes expired key-value pairs: the passes of its endless
    loop, as far as [passes] gives the instants and the orders. *)
Fixpoint clean (passes : list (Time * list string)) (w : World) : outcome unit :=
  match passes with
  | [] => Returned tt w
  | (now, visit) :: rest =>
      match clean_range now visit w with
      | Returned _ w' => clean rest w'
      | Panicked e w' => Panicked e w'
      end
  end.

(** [NewKeyValueStore] creates a new KeyValueStore. *)
Definition NewKeyValueStore (now : Time) (folder : string) (fs : FS) : outcome unit :=
  let w := mkWorld (mkStore ∅ folder) fs in
  let (err, w') := init now w in
  match err with
  | Some e => Panicked e w'
  | None => Returned tt w'
  end.

(** One call, at the instant [now]. *)
Definition step (now : Time) (c : call) (w : World) : reply * World :=
  match c with
  | CallSet key value ttl => let (err, w') := Set_ now key value ttl w in (RSet err, w')
  | CallGet key => let (r, w') := Get now key w in (RGet r.1 r.2, w')
  | CallDelete key => let (err, w') := Delete key w in (RDelete err, w')
  | CallLength => let (n, w') := Length now w in (RLength n, w')
  | Sweep visit =>
      match clean_range now visit w with
      | Returned _ w' => (RSweep, w')
      | Panicked e w' => (RPanic e, w')
      end
  end.

(** A sequence of calls; a panic ends the process. *)
Fixpoint run (calls : list (Time * call)) (w : World) : list reply * World :=
  match calls with
  | [] => ([], w)
  | (now, c) :: rest =>
      let (r, w') := step now c w in
      match r with
      | RPanic _ => ([r], w')
      | _ => let (rs, w'') := run rest w' in (r :: rs, w'')
      end
  end.

End Store.

(** ** The in-memory store (the revision without a cache folder) *)

Module InMemory.

Local Open Scope prog_scope.

(** A node is a key-value pair with a deleteTimestamp. *)
Record node := mkNode {
  key : string;
  value : any;
  deleteTimestamp : Z
}.

(** [newNode] creates a new node with a key, value, and TTL. *)
Definition newNode (now : Time) (k : string) (v : any) (ttl : Z) : node :=
  let timestamp := UnixMilli (Time_Add now (Duration_mul ttl Millisecond)) in
  {| key := k; value := v; deleteTimestamp := timestamp |}.

(** [nodeIsExpired] returns true if a node is expired. *)
Definition nodeIsExpired (now : Time) (n : node) : bool :=
  UnixMilli now >? deleteTimestamp n.

Record KeyValueStore := mkStore {
  data : gmap string node
}.

(** [NewKeyValueStore] creates a new KeyValueStore. *)
Definition NewKeyValueStore : KeyValueStore := mkStore ∅.

(** [Set] sets a key-value pair with a TTL in milliseconds. *)
Definition Set_ (now : Time) (k : string) (v : any) (ttl : Z)
  : M KeyValueStore unit :=
  modify (fun d => mkStore (<[k := newNode now k v ttl]> (data d))).

(** [Get] gets a value by key. *)
Definition Get (now : Time) (k : string) : M KeyValueStore (any * bool) :=
  let* r := gets (fun d => index (mkNode "" Nil 0) (data d) k) in
  let (val, ok) := r : node * bool in
  if negb ok || nodeIsExpired now val then ret (Nil, false)
  else ret (value val, ok).

(** [Delete] deletes a key. *)
Definition Delete (k : string) : M KeyValueStore unit :=
  modify (fun d => mkStore (delete k (data d))).

(** [Length] returns the number of key-value pairs in the store. *)
Definition Length (now : Time) : M KeyValueStore Z :=
  let* d := gets data in
  ret (map_fold (fun (_ : string) (n : node) (counter : Z) =>
                   if negb (nodeIsExpired now n) then counter + 1 else counter)
                0 d).

(** One pass of the loop of [clean] over the map. *)
Fixpoint clean_range (now : Time) (visit : list string) (d : KeyValueStore)
  : KeyValueStore :=
  match visit with
  | [] => d
  | k :: rest =>
      match data d !! k with
      | None => clean_range now rest d
      | Some n =>
          if nodeIsExpired now n
          then clean_range now rest (mkStore (delete k (data d)))
          else clean_range now rest d
      end
  end.

Definition step (now : Time) (c : call) (d : KeyValueStore) : reply * KeyValueStore :=
  match c with
  | CallSet k v ttl => let (_, d') := Set_ now k v ttl d in (RSet None, d')
  | CallGet k => let (r, d') := Get now k d in (RGet r.1 r.2, d')
  | CallDelete k => let (_, d') := Delete k d in (RDelete None, d')
  | CallLength => let (n, d') := Length now d in (RLength n, d')
  | Sweep visit => (RSweep, clean_range now visit d)
  end.

Fixpoint run (calls : list (Time * call)) (d : KeyValueStore)
  : list reply * KeyValueStore :=
  match calls with
  | [] => ([], d)
  | (now, c) :: rest =>
      let (r, d') := step now c d in
      let (rs, d'') := run rest d' in (r :: rs, d'')
  end.

End InMemory.

(** ** Properties of stores and values *)

(** Every entry is stored under its own key. *)
Definition key_invariant (d : gmap string node) : Prop :=
  forall k n, d !! k = Some n -> Key n = k.

(** The entries that are not expired at [now]. *)
Definition live (now : Time) (d : gmap string node) : gmap string node :=
  filter (fun kn => nodeIsExpired now kn.2 = false) d.

(** The dynamic types that decoding into an interface value produces. *)
Fixpoint is_generic (v : any) : bool :=
  match v with
  | Nil | Bool _ | Float64 _ | Str _ => true
  | Slice elems => forallb is_generic elems
  | Map entries => forallb (fun p : string * any => is_generic p.2) entries
  | Int _ | Struct _ | Chan => false
  end.

(** Values whose integers fit a Go integer type. *)
Fixpoint well_typed (v : any) : bool :=
  match v with
  | Int n => (- 2 ^ 63 <=? n) && (n <? 2 ^ 64)
  | Slice elems => forallb well_typed elems
  | Map entries => forallb (fun p : string * any => well_typed p.2) entries
  | Struct fields => forallb (fun p : string * any => well_typed p.2) fields
  | _ => true
  end.

(** Values built from [nil], booleans, valid UTF-8 strings and slices. *)
Fixpoint is_plain (v : any) : bool :=
  match v with
  | Nil | Bool _ => true
  | Str s => String.eqb (json.toValidUTF8 s) s
  | Slice elems => forallb is_plain elems
  | _ => false
  end.

(** The path of the mirror file of [key] in [folder]. *)
Definition mirror (folder key : string) : string :=
  filepath_Join folder (hex.EncodeToString (sha256.Sum256 key) +:+ ".store.json").

(** A store that has just been created, over an empty file system. *)
Definition fresh (folder : string) : World := mkWorld (mkStore ∅ folder) (mkFS ∅ ∅).

(** A file system in which the mirror file of ["k"] in ["cache"] cannot
    be written or removed. *)
Definition locked_disk : FS := mkFS ∅ {[ mirror "cache" "k" ]}.

(** Two entries with a TTL of 50 ms, set at instant 0 with their mirror
    files in ["cache"]; afterwards the mirror file of ["a"] has become
    undeletable. *)
Definition stale_world : World :=
  let w := (run Arch64 [(0, CallSet "a" (Str "1") 50); (0, CallSet "b" (Str "2") 50)]
              (fresh "cache")).2 in
  mkWorld (store w) (mkFS (files (disk w)) {[ mirror "cache" "a" ]}).

(** The files a store leaves behind in ["cache"] after
    [Set("k", "v", 1000)] at the instant 4000 ms: the mirror of an entry
    with the deadline 5000 ms. *)
Definition saved_disk : FS :=
  disk (Set_ Arch64 4000000000 "k" (Str "v") 1000 (fresh "cache")).2.

(** The name of the mirror file of ["k"]. *)
Definition saved_name : string :=
  hex.EncodeToString (sha256.Sum256 "k") +:+ ".store.json".

(** Induction on values, through the lists they contain. *)
Section any_induction.
Variable P : any -> Prop.
Hypothesis HNil : P Nil.
Hypothesis HBool : forall b, P (Bool b).
Hypothesis HInt : forall n, P (Int n).
Hypothesis HFloat64 : forall f, P (Float64 f).
Hypothesis HStr : forall s, P (Str s).
Hypothesis HSlice : forall l, Forall P l -> P (Slice l).
Hypothesis HMap : forall m, Forall (fun p : string * any => P p.2) m -> P (Map m).
Hypothesis HStruct : forall m, Forall (fun p : string * any => P p.2) m -> P (Struct m).
Hypothesis HChan : P Chan.

Fixpoint any_induction (v : any) : P v :=
  let fix elems (l : list any) : Forall P l :=
    match l with
    | [] => List.Forall_nil P
    | x :: r => @List.Forall_cons _ P x r (any_induction x) (elems r)
    end in
  let fix entries (l : list (string * any)) : Forall (fun p => P p.2) l :=
    match l with
    | [] => List.Forall_nil _
    | p :: r => @List.Forall_cons _ (fun p => P p.2) p r (any_induction p.2) (entries r)
    end in
  match v with
  | Nil => HNil
  | Bool b => HBool b
  | Int n => HInt n
  | Float64 f => HFloat64 f
  | Str s => HStr s
  | Slice l => HSlice l (elems l)
  | Map m => HMap m (entries m)
  | Struct m => HStruct m (entries m)
  | Chan => HChan
  end.
End any_induction.

(** The payload of the repository's test [TestSetTypeAsValue]:
    [testStruct{Name: "Alice", Age: 30}], stored under ["key4"]. *)
Definition alice : node :=
  mkNode "key4" (Struct [("Name"%string, Str "Alice"); ("Age"%string, Int 30)]) 1000.

(** A key that is not valid UTF-8: the single byte 0xFF. *)
Definition odd_key : node :=
  mkNode (String (ascii_of_N 255) EmptyString) (Str "v") 1000.

(** The entry of the in-memory store with the same three fields. *)
Definition plain_node (n : node) : InMemory.node :=
  InMemory.mkNode (Key n) (Value n) (DeleteTimestamp n).

(** A call that is not a [Set] with the TTL 0. *)
Definition nonzero_ttl (c : Time * call) : bool :=
  match c.2 with
  | CallSet _ _ ttl => negb (ttl =? 0)
  | _ => true
  end.

(** A store with a cache folder that holds an expired and a live entry
    at the instant 1000 ms; no path is denied. *)
Definition two_entries : World :=
  mkWorld (mkStore (<["b"%string := mkNode "b" (Str "2") 2000]>
                      (<["a"%string := mkNode "a" (Str "1") 50]> ∅)) "cache")
          (mkFS ∅ ∅).

(** The name of the mirror file of a key inside the cache folder. *)
Definition mirror_name (key : string) : string :=
  hex.EncodeToString (sha256.Sum256 key) +:+ ".store.json".

(** What decoding makes of an encoded value: a value of a generic type,
    the original one when that is plain. *)
Definition decodes (v : any) (j : json.value) : Prop :=
  exists g, json.unmarshal_any j = inr g
            /\ is_generic g = true
            /\ (is_plain v = true -> g = v).

(** A file system in which the cache folder holds a file that is not a
    mirror file. *)
Definition notes_disk : FS := mkFS {[ "cache/notes.txt"%string := json.Garbage "hello" ]} ∅.

(** * Theorems *)

(** ** The library models on known inputs *)

Example Sum256_abc :
  hex.EncodeToString (sha256.Sum256 "abc")
  = "ba7816bf8f01cfea414140de5dae2223b00361a396177a9cb410ff61f20015ad"%string.
Proof. vm_compute. reflexivity. Qed.

Example Sum256_empty :
  hex.EncodeToString (sha256.Sum256 "")
  = "e3b0c44298fc1c149afbf4c8996fb92427ae41e4649b934ca495991b7852b855"%string.
Proof. vm_compute. reflexivity. Qed.

Example HasSuffix_store_json :
  HasSuffix "ab.store.json" ".store.json" = true
  /\ HasSuffix "store.json" ".store.json" = false.
Proof. split; reflexivity. Qed.

(** ** Arithmetic of deadlines *)

Lemma Duration_mul_MaxInt64 : Duration_mul (math_MaxInt Arch64) Millisecond = -1000000.
Proof. vm_compute. reflexivity. Qed.

Lemma Duration_mul_MaxInt32 :
  Duration_mul (math_MaxInt Arch32) Millisecond = 2147483647 * 1000000.
Proof. vm_compute. reflexivity. Qed.

Lemma UnixMilli_add_ms (t k : Z) : UnixMilli (Time_Add t (k * 1000000)) = UnixMilli t + k.
Proof. unfold UnixMilli, Time_Add. rewrite Z.div_add by lia. reflexivity. Qed.

Lemma UnixMilli_mono (t t' : Time) : t <= t' -> UnixMilli t <= UnixMilli t'.
Proof. intros H. unfold UnixMilli. apply Z.div_le_mono; lia. Qed.

Lemma newNode_zero_64 now key value :
  newNode Arch64 now key value 0 = mkNode key value (UnixMilli now - 1).
Proof.
  unfold newNode. simpl (0 =? 0). cbv iota.
  rewrite Duration_mul_MaxInt64.
  change (-1000000) with ((-1) * 1000000).
  rewrite UnixMilli_add_ms. f_equal.
Qed.

Lemma newNode_zero_32 now key value :
  newNode Arch32 now key value 0 = mkNode key value (UnixMilli now + 2147483647).
Proof.
  unfold newNode. simpl (0 =? 0). cbv iota.
  rewrite Duration_mul_MaxInt32, UnixMilli_add_ms. reflexivity.
Qed.

(** ** The store operations, step by step *)

Ltac prog :=
  unfold Set_, Get, Delete, Length, saveInCache, deleteInCache, getFileName,
    set_data, os, os_read, bind, ret, gets, modify in *; simpl in *.

Lemma getFileName_eq key w :
  getFileName key w = ((mirror (cacheFolder (store w)) key, None), w).
Proof. reflexivity. Qed.

Lemma saveInCache_eq n w :
  saveInCache n w
  = if String.eqb (cacheFolder (store w)) "" then (None, w)
    else match json.Marshal n with
         | inl err => (Some err, w)
         | inr content =>
             let (err, fs) := os_WriteFile (mirror (cacheFolder (store w)) (Key n))
                                content (disk w) in
             (err, mkWorld (store w) fs)
         end.
Proof.
  unfold saveInCache, bind, gets, ret.
  destruct (String.eqb _ _); [reflexivity|].
  destruct (json.Marshal n); reflexivity.
Qed.

Lemma deleteInCache_eq key w :
  deleteInCache key w
  = if String.eqb (cacheFolder (store w)) "" then (None, w)
    else let (err, fs) := os_Remove (mirror (cacheFolder (store w)) key) (disk w) in
         (match err with
          | Some e => if os_IsNotExist e then None else Some e
          | None => None
          end, mkWorld (store w) fs).
Proof.
  unfold deleteInCache, bind, gets, ret.
  destruct (String.eqb _ _); [reflexivity|].
  unfold getFileName, bind, gets, ret, os. cbn [store disk fst snd].
  fold (mirror (cacheFolder (store w)) key).
  destruct (os_Remove _ _) as [[e|] fs]; [destruct (os_IsNotExist e)|]; reflexivity.
Qed.

Lemma Set_eq arch now key value ttl w :
  Set_ arch now key value ttl w
  = saveInCache (newNode arch now key value ttl)
      (mkWorld (mkStore (<[key := newNode arch now key value ttl]> (data (store w)))
                        (cacheFolder (store w))) (disk w)).
Proof.
  unfold Set_, bind, set_data, modify, ret.
  destruct (saveInCache _ _) as [[e|] w']; reflexivity.
Qed.

Lemma Delete_eq key w :
  Delete key w
  = deleteInCache key
      (mkWorld (mkStore (delete key (data (store w))) (cacheFolder (store w))) (disk w)).
Proof. reflexivity. Qed.

Lemma saveInCache_store n w : store (saveInCache n w).2 = store w.
Proof.
  prog. destruct (String.eqb _ _); [reflexivity|].
  destruct (json.Marshal n); [reflexivity|].
  unfold os_WriteFile. destruct (decide _); reflexivity.
Qed.

Lemma deleteInCache_store key w : store (deleteInCache key w).2 = store w.
Proof.
  prog. destruct (String.eqb _ _); [reflexivity|].
  unfold os_Remove. destruct (files _ !! _); [|reflexivity].
  destruct (decide _); reflexivity.
Qed.

Lemma Set_store arch now key value ttl w :
  store (Set_ arch now key value ttl w).2
  = mkStore (<[key := newNode arch now key value ttl]> (data (store w)))
            (cacheFolder (store w)).
Proof.
  unfold Set_, bind at 1. unfold set_data at 1, modify at 1.
  unfold bind. 
  match goal with |- context [saveInCache ?n ?w'] =>
    pose proof (saveInCache_store n w') as H; destruct (saveInCache n w') as [[e|] w2] end;
  simpl in *; rewrite H; reflexivity.
Qed.

Lemma Delete_store key w :
  store (Delete key w).2 = mkStore (delete key (data (store w))) (cacheFolder (store w)).
Proof.
  unfold Delete, bind, set_data, modify.
  match goal with |- context [deleteInCache ?k ?w'] =>
    pose proof (deleteInCache_store k w') as H end.
  rewrite H. reflexivity.
Qed.

Lemma Get_eq now key w :
  Get now key w
  = (match data (store w) !! key with
     | Some n => if nodeIsExpired now n then (Nil, false) else (Value n, true)
     | None => (Nil, false)
     end, w).
Proof.
  unfold Get, bind, gets, index, ret.
  destruct (data (store w) !! key) as [n|]; simpl; [|reflexivity].
  destruct (nodeIsExpired now n); reflexivity.
Qed.

(** ** C1: a TTL of zero *)

(** C1 (the code departs from it).  With a 64-bit [int], [Set(k, v, 0)]
    stores the deadline one millisecond before the call: the product
    [math.MaxInt * time.Millisecond] overflows to -1ms.  The entry is
    expired at the instant of the call and at every later instant, and
    [Get] does not find it.  With a 32-bit [int] the deadline is
    2147483647 ms after the call, and the entry is expired one
    millisecond later. *)
Theorem Set_ttl_zero_is_expired (now now' : Time) (key : string) (value : any) (w : World) :
  now <= now' ->
  let w64 := (Set_ Arch64 now key value 0 w).2 in
  let w32 := (Set_ Arch32 now key value 0 w).2 in
  data (store w64) !! key = Some (mkNode key value (UnixMilli now - 1))
  /\ nodeIsExpired now' (mkNode key value (UnixMilli now - 1)) = true
  /\ (Get now' key w64).1 = (Nil, false)
  /\ data (store w32) !! key = Some (mkNode key value (UnixMilli now + 2147483647))
  /\ (Get (now' + 2147483648 * 1000000) key w32).1 = (Nil, false).
Proof.
  intros Hle w64 w32.
  assert (H64 : data (store w64) !! key = Some (mkNode key value (UnixMilli now - 1))).
  { unfold w64. rewrite Set_store. simpl. rewrite lookup_insert_eq.
    rewrite newNode_zero_64. reflexivity. }
  assert (H32 : data (store w32) !! key
                = Some (mkNode key value (UnixMilli now + 2147483647))).
  { unfold w32. rewrite Set_store. simpl. rewrite lookup_insert_eq.
    rewrite newNode_zero_32. reflexivity. }
  assert (Hexp : nodeIsExpired now' (mkNode key value (UnixMilli now - 1)) = true).
  { unfold nodeIsExpired. simpl. apply UnixMilli_mono in Hle. lia. }
  repeat split; try assumption.
  - rewrite Get_eq, H64, Hexp. reflexivity.
  - rewrite Get_eq, H32. simpl.
    replace (nodeIsExpired _ _) with true; [reflexivity|].
    symmetry. unfold nodeIsExpired. simpl.
    pose proof (UnixMilli_add_ms now' 2147483648) as Ha. unfold Time_Add in Ha.
    rewrite Ha. apply UnixMilli_mono in Hle. lia.
Qed.

Lemma Set_ttl_zero_is_expired_witness :
  1000000000 <= 1500000000
  /\ (Get 1500000000 "k" (Set_ Arch64 1000000000 "k" (Str "v") 0 (fresh "")).2).1
     = (Nil, false).
Proof.
  split; [lia|].
  apply (Set_ttl_zero_is_expired 1000000000 1500000000 "k" (Str "v") (fresh "")).
  lia.
Defined.

(** ** C7: reading *)

(** C7.  [Get(k)] finds the key exactly when it is in the map with an
    entry that is not expired at the instant of the call, and then returns
    its value; otherwise it returns [(nil, false)].  In every case the
    store and the file system are what they were: an expired entry stays
    in the map. *)
Theorem Get_found_iff_live (now : Time) (key : string) (w : World) :
  (Get now key w).2 = w
  /\ ((Get now key w).1.2 = true
      <-> exists n, data (store w) !! key = Some n /\ nodeIsExpired now n = false)
  /\ (forall n, data (store w) !! key = Some n -> nodeIsExpired now n = false ->
        (Get now key w).1 = (Value n, true))
  /\ ((Get now key w).1.2 = false -> (Get now key w).1 = (Nil, false)).
Proof.
  rewrite Get_eq. simpl. split; [reflexivity|].
  destruct (data (store w) !! key) as [n|] eqn:Hk;
    [destruct (nodeIsExpired now n) eqn:He|]; simpl.
  - split; [|split].
    + split; [discriminate|]. intros (n' & Hn' & He'). congruence.
    + intros n' [= <-] He'. congruence.
    + reflexivity.
  - split; [|split].
    + split; [|reflexivity]. intros _. exists n. split; [reflexivity|assumption].
    + intros n' [= <-] _. reflexivity.
    + discriminate.
  - split; [|split].
    + split; [discriminate|]. intros (n' & Hn' & _). discriminate.
    + intros n' [=].
    + reflexivity.
Qed.

(** ** C6: counting *)

Lemma Length_fold now (d : gmap string node) :
  map_fold (fun (_ : string) (n : node) (counter : Z) =>
              if negb (nodeIsExpired now n) then counter + 1 else counter) 0 d
  = Z.of_nat (size (live now d)).
Proof.
  unfold live.
  apply (map_fold_weak_ind
           (fun (r : Z) (m : gmap string node) =>
              r = Z.of_nat (size (filter (fun kn => nodeIsExpired now kn.2 = false) m)))).
  - rewrite map_filter_empty, map_size_empty. reflexivity.
  - intros k n m r Hk ->.
    destruct (nodeIsExpired now n) eqn:He; simpl.
    + rewrite map_filter_insert_False by (simpl; congruence).
      rewrite delete_id by assumption. reflexivity.
    + rewrite map_filter_insert_True by (simpl; assumption).
      rewrite map_size_insert_None; [lia|].
      apply map_lookup_filter_None. left. assumption.
Qed.

Lemma Length_eq now w :
  Length now w = (Z.of_nat (size (live now (data (store w)))), w).
Proof. unfold Length, bind, gets, ret. rewrite Length_fold. reflexivity. Qed.

(** C6.  [Length()] returns the number of entries of the map that are not
    expired at the instant of the call, whether or not the sweeper has
    removed the expired ones, and changes nothing. *)
Theorem Length_counts_live (now : Time) (w : World) :
  Length now w = (Z.of_nat (size (live now (data (store w)))), w).
Proof. unfold Length, bind, gets, ret. rewrite Length_fold. reflexivity. Qed.

(** An expired entry that is still in the map does not count. *)
Lemma Length_skips_expired now w key n :
  data (store w) !! key = Some n -> nodeIsExpired now n = true ->
  (Length now w).1
  = (Length now (mkWorld (mkStore (delete key (data (store w))) (cacheFolder (store w)))
                         (disk w))).1.
Proof.
  intros Hk He. rewrite !Length_eq. simpl. unfold live.
  rewrite map_filter_delete.
  rewrite (delete_id (filter _ _)); [reflexivity|].
  apply map_lookup_filter_None. right. intros n' Hn'. simpl. congruence.
Qed.

(** ** C4: a failed mirror write *)

Lemma eqb_empty_false (folder : string) : folder <> ""%string -> String.eqb folder "" = false.
Proof. intros H. apply String.eqb_neq. assumption. Qed.

(** C4.  With a cache folder, when writing the mirror file fails, [Set]
    returns that error and the map holds the new entry for the key all
    the same; the other keys are untouched. *)
Theorem Set_write_failure_keeps_entry
    (arch : Arch) (now : Time) (key : string) (value : any) (ttl : Z)
    (w : World) (content : json.bytes) (e : error) (fs' : FS) :
  cacheFolder (store w) <> ""%string ->
  json.Marshal (newNode arch now key value ttl) = inr content ->
  os_WriteFile (mirror (cacheFolder (store w)) key) content (disk w) = (Some e, fs') ->
  (Set_ arch now key value ttl w).1 = Some e
  /\ data (store (Set_ arch now key value ttl w).2) !! key
     = Some (newNode arch now key value ttl)
  /\ (forall k, k <> key ->
        data (store (Set_ arch now key value ttl w).2) !! k = data (store w) !! k).
Proof.
  intros Hfolder Hjson Hwrite. split; [|split].
  - rewrite Set_eq, saveInCache_eq. cbn [store cacheFolder disk Key newNode].
    rewrite (eqb_empty_false _ Hfolder), Hjson, Hwrite. reflexivity.
  - rewrite Set_store. simpl. apply lookup_insert_eq.
  - intros k Hk. rewrite Set_store. simpl. apply lookup_insert_ne. congruence.
Qed.

Lemma Set_write_failure_keeps_entry_witness :
  (Set_ Arch64 1000000000 "k" (Str "v") 100 (mkWorld (mkStore ∅ "cache") locked_disk)).1
  = Some ErrPermission
  /\ data (store (Set_ Arch64 1000000000 "k" (Str "v") 100
                    (mkWorld (mkStore ∅ "cache") locked_disk)).2) !! "k"%string
     = Some (mkNode "k" (Str "v") 1100).
Proof.
  pose proof (Set_write_failure_keeps_entry Arch64 1000000000 "k" (Str "v") 100
                (mkWorld (mkStore ∅ "cache") locked_disk)
                (json.Text (json.Object
                   [("key"%string, json.String_ "k");
                    ("value"%string, json.String_ "v");
                    ("deleteTimestamp"%string, json.Number (json.Integer 1100))]))
                ErrPermission locked_disk) as H.
  destruct H as (H1 & H2 & _).
  - discriminate.
  - vm_compute. reflexivity.
  - vm_compute. reflexivity.
  - split; [exact H1 | exact H2].
Defined.

(** An unencodable value is reported in the same way. *)
Lemma Set_marshal_failure_keeps_entry arch now key value ttl w e :
  cacheFolder (store w) <> ""%string ->
  json.Marshal (newNode arch now key value ttl) = inl e ->
  (Set_ arch now key value ttl w).1 = Some e
  /\ data (store (Set_ arch now key value ttl w).2) !! key
     = Some (newNode arch now key value ttl).
Proof.
  intros Hfolder Hjson. split.
  - rewrite Set_eq, saveInCache_eq. cbn [store cacheFolder disk].
    rewrite (eqb_empty_false _ Hfolder), Hjson. reflexivity.
  - rewrite Set_store. simpl. apply lookup_insert_eq.
Qed.

(** ** C8: deleting *)

Lemma os_Remove_missing path fs :
  files fs !! path = None -> os_Remove path fs = (Some ErrNotExist, fs).
Proof. intros H. unfold os_Remove. rewrite H. reflexivity. Qed.

Lemma deleteInCache_quiet key w :
  files (disk w) !! mirror (cacheFolder (store w)) key = None
  \/ cacheFolder (store w) = ""%string ->
  deleteInCache key w = (None, w).
Proof.
  intros H. rewrite deleteInCache_eq.
  destruct (String.eqb (cacheFolder (store w)) "") eqn:Hf; [reflexivity|].
  destruct H as [H|H].
  - rewrite (os_Remove_missing _ _ H). destruct w; reflexivity.
  - rewrite H in Hf. discriminate.
Qed.

(** Whatever [os.Remove] answers, the key leaves the map, and a second
    [Delete] finds nothing more to do. *)
Lemma Delete_twice key w :
  data (store (Delete key w).2) = delete key (data (store w))
  /\ (Delete key (Delete key w).2).2 = (Delete key w).2.
Proof.
  split; [rewrite Delete_store; reflexivity|].
  rewrite (Delete_eq key w), (deleteInCache_eq key). cbn [store cacheFolder disk data].
  destruct (String.eqb (cacheFolder (store w)) "") eqn:Hf.
  - cbn [snd]. rewrite Delete_eq, deleteInCache_eq. cbn [store cacheFolder disk data].
    rewrite Hf, delete_delete_eq. reflexivity.
  - unfold os_Remove at 1 2.
    destruct (files (disk w) !! _) as [c|] eqn:Hc; [destruct (decide _) as [Hd|Hd]|];
      cbn [snd]; rewrite Delete_eq, deleteInCache_eq; cbn [store cacheFolder disk data];
      rewrite Hf, delete_delete_eq; unfold os_Remove; cbn [files denied].
    + rewrite Hc, decide_True by assumption. reflexivity.
    + rewrite lookup_delete_eq. reflexivity.
    + rewrite Hc. reflexivity.
Qed.

(** C8.  [Delete(k)] removes the key from the map whatever else happens.
    When the mirror file does not exist, or there is no cache folder, it
    returns no error and leaves the files alone; if moreover the key was
    not in the map, nothing changes at all; and deleting again gives the
    same result and the same state. *)
Theorem Delete_is_idempotent (key : string) (w : World) :
  files (disk w) !! mirror (cacheFolder (store w)) key = None
  \/ cacheFolder (store w) = ""%string ->
  (forall w', data (store (Delete key w').2) = delete key (data (store w')))
  /\ Delete key w
     = (None, mkWorld (mkStore (delete key (data (store w))) (cacheFolder (store w)))
                      (disk w))
  /\ (data (store w) !! key = None -> Delete key w = (None, w))
  /\ Delete key (Delete key w).2 = Delete key w.
Proof.
  intros H.
  assert (H1 : Delete key w
               = (None, mkWorld (mkStore (delete key (data (store w)))
                                         (cacheFolder (store w))) (disk w))).
  { rewrite Delete_eq. apply deleteInCache_quiet. exact H. }
  split; [intros w'; apply Delete_twice|]. split; [exact H1|]. split.
  - intros Hk. rewrite H1, delete_id by assumption. destruct w as [[d f] fs]. reflexivity.
  - rewrite H1. cbn [snd]. rewrite Delete_eq. cbn [store data cacheFolder disk].
    rewrite delete_delete_eq. apply deleteInCache_quiet. exact H.
Qed.

Lemma Delete_is_idempotent_witness :
  Delete "key4" (fresh "cache") = (None, fresh "cache")
  /\ Delete "key4" (Delete "key4" (fresh "cache")).2 = Delete "key4" (fresh "cache").
Proof.
  destruct (Delete_is_idempotent "key4" (fresh "cache")) as (_ & _ & H3 & H4).
  - left. reflexivity.
  - split; [apply H3; reflexivity | exact H4].
Defined.

(** ** C2: a failed mirror deletion during the sweep *)

Lemma clean_range_skip now key rest w :
  (forall n, data (store w) !! key = Some n -> nodeIsExpired now n = false) ->
  clean_range now (key :: rest) w = clean_range now rest w.
Proof.
  intros H. cbn [clean_range].
  destruct (data (store w) !! key) as [n|]; [|reflexivity].
  rewrite (H n eq_refl). reflexivity.
Qed.

Lemma clean_range_evict now key rest w n :
  data (store w) !! key = Some n -> nodeIsExpired now n = true ->
  clean_range now (key :: rest) w
  = let (err, w2) := deleteInCache key
                       (mkWorld (mkStore (delete key (data (store w)))
                                         (cacheFolder (store w))) (disk w)) in
    match err with
    | Some e => Panicked e w2
    | None => clean_range now rest w2
    end.
Proof. intros Hk He. cbn [clean_range]. rewrite Hk, He. reflexivity. Qed.

(** The sweeper removes the mirror file of a key whose path is not
    denied without failing; the other files and the denied paths stay. *)
Lemma deleteInCache_allowed key w :
  mirror (cacheFolder (store w)) key ∉ denied (disk w) ->
  exists fs, deleteInCache key w = (None, mkWorld (store w) fs)
    /\ denied fs = denied (disk w)
    /\ (forall p, p <> mirror (cacheFolder (store w)) key ->
          files fs !! p = files (disk w) !! p).
Proof.
  intros Hd. rewrite deleteInCache_eq.
  destruct (String.eqb _ _).
  - exists (disk w). destruct w. repeat split; reflexivity.
  - unfold os_Remove. destruct (files (disk w) !! _) as [c|] eqn:Hc.
    + rewrite decide_False by assumption. eexists. split; [reflexivity|].
      split; [reflexivity|]. intros p Hp. cbn [files]. apply lookup_delete_ne. congruence.
    + exists (disk w). repeat split; reflexivity.
Qed.

Lemma deleteInCache_denied key w c :
  cacheFolder (store w) <> ""%string ->
  files (disk w) !! mirror (cacheFolder (store w)) key = Some c ->
  mirror (cacheFolder (store w)) key ∈ denied (disk w) ->
  deleteInCache key w = (Some ErrPermission, w).
Proof.
  intros Hf Hc Hd. rewrite deleteInCache_eq, (eqb_empty_false _ Hf).
  unfold os_Remove. rewrite Hc, decide_True by assumption.
  destruct w; reflexivity.
Qed.

(** C2 (as the code has it).  When the mirror file of an expired entry
    cannot be removed, for a reason other than its absence, the sweeper
    panics with that error at that entry: the entry has left the map, the
    keys the pass has not reached yet are left as they were, expired or
    not, and no later pass runs. *)
Theorem sweep_failure_panics
    (now : Time) (pre : list string) (key : string) (post : list string)
    (w : World) (n : node) (c : json.bytes) :
  cacheFolder (store w) <> ""%string ->
  key ∉ pre ->
  data (store w) !! key = Some n ->
  nodeIsExpired now n = true ->
  files (disk w) !! mirror (cacheFolder (store w)) key = Some c ->
  mirror (cacheFolder (store w)) key ∈ denied (disk w) ->
  (forall k, k ∈ pre -> mirror (cacheFolder (store w)) k ∉ denied (disk w)) ->
  exists w',
    clean_range now (pre ++ key :: post) w = Panicked ErrPermission w'
    /\ data (store w') !! key = None
    /\ (forall k, k ∉ pre -> k <> key -> data (store w') !! k = data (store w) !! k)
    /\ (forall passes,
          clean ((now, pre ++ key :: post) :: passes) w = Panicked ErrPermission w').
Proof.
  intros Hf Hpre Hk He Hc Hd Hall.
  enough (exists w',
    clean_range now (pre ++ key :: post) w = Panicked ErrPermission w'
    /\ data (store w') !! key = None
    /\ (forall k, k ∉ pre -> k <> key -> data (store w') !! k = data (store w) !! k))
    as (w' & H1 & H2 & H3).
  { exists w'. repeat split; try assumption.
    intros passes. cbn [clean]. rewrite H1. reflexivity. }
  revert w Hf Hk Hc Hd Hall. induction pre as [|k pre IH]; intros w Hf Hk Hc Hd Hall.
  - cbn [app]. rewrite (clean_range_evict _ _ _ _ _ Hk He).
    erewrite deleteInCache_denied; cbn [store cacheFolder disk]; eauto.
    eexists. split; [reflexivity|]. cbn [store data]. split.
    + apply lookup_delete_eq.
    + intros k _ Hne. apply lookup_delete_ne. congruence.
  - apply not_elem_of_cons in Hpre as [Hne Hpre].
    cbn [app].
    destruct (data (store w) !! k) as [m|] eqn:Hm;
      [destruct (nodeIsExpired now m) eqn:Hem|].
    + rewrite (clean_range_evict _ _ _ _ _ Hm Hem).
      set (w1 := mkWorld (mkStore (delete k (data (store w))) (cacheFolder (store w)))
                         (disk w)).
      destruct (deleteInCache_allowed k w1) as (fs & Hdel & Hden & Hfiles).
      { apply Hall. left. }
      rewrite Hdel.
      destruct (IH Hpre (mkWorld (store w1) fs)) as (w' & H1 & H2 & H3);
        cbn [store cacheFolder data disk w1].
      * assumption.
      * rewrite lookup_delete_ne by congruence. assumption.
      * rewrite Hfiles; [eassumption|].
        cbn [store cacheFolder w1]. intros Heq.
        apply (Hall k); [left|]. rewrite <- Heq. assumption.
      * rewrite Hden. assumption.
      * intros k' Hk'. rewrite Hden. apply Hall. right. assumption.
      * exists w'. split; [exact H1|]. split; [exact H2|].
        intros k' Hk' Hne'. apply not_elem_of_cons in Hk' as [Hk'1 Hk'2].
        rewrite (H3 k' Hk'2 Hne'). cbn [store data w1].
        apply lookup_delete_ne. congruence.
    + rewrite clean_range_skip by (intros m' Hm'; congruence).
      destruct (IH Hpre w) as (w' & H1 & H2 & H3); try assumption.
      * intros k' Hk'. apply Hall. right. assumption.
      * exists w'. split; [exact H1|]. split; [exact H2|].
        intros k' Hk' Hne'. apply not_elem_of_cons in Hk' as [Hk'1 Hk'2].
        apply H3; assumption.
    + rewrite clean_range_skip by (intros m' Hm'; congruence).
      destruct (IH Hpre w) as (w' & H1 & H2 & H3); try assumption.
      * intros k' Hk'. apply Hall. right. assumption.
      * exists w'. split; [exact H1|]. split; [exact H2|].
        intros k' Hk' Hne'. apply not_elem_of_cons in Hk' as [Hk'1 Hk'2].
        apply H3; assumption.
Qed.

Lemma sweep_failure_panics_witness :
  exists w',
    clean_range 1000000000 ["a"; "b"]%string stale_world = Panicked ErrPermission w'
    /\ data (store w') !! "a"%string = None.
Proof.
  destruct (sweep_failure_panics 1000000000 [] "a" ["b"]%string stale_world
              (mkNode "a" (Str "1") 50)
              (json.Text (json.Object
                 [("key"%string, json.String_ "a");
                  ("value"%string, json.String_ "1");
                  ("deleteTimestamp"%string, json.Number (json.Integer 50))])))
    as (w' & H1 & H2 & _).
  - discriminate.
  - apply not_elem_of_nil.
  - vm_compute. reflexivity.
  - vm_compute. reflexivity.
  - vm_compute. reflexivity.
  - vm_compute. reflexivity.
  - intros k Hk. apply elem_of_nil in Hk. destruct Hk.
  - exists w'. split; [exact H1 | exact H2].
Defined.

(** C2, refuted as stated: the pass that meets the undeletable mirror
    file of ["a"] panics, and the expired entry ["b"] is still in the
    map. *)
Lemma sweep_failure_crashes :
  clean_range 1000000000 ["a"; "b"]%string stale_world
  = Panicked ErrPermission
      (mkWorld (mkStore {[ "b"%string := mkNode "b" (Str "2") 50 ]} "cache")
               (disk stale_world))
  /\ nodeIsExpired 1000000000 (mkNode "b" (Str "2") 50) = true.
Proof. split; vm_compute; reflexivity. Qed.

(** ** C3: replay at startup *)

(** C3 (the code departs from it).  When the persisted deadline equals
    the current instant in milliseconds, the remaining time is zero, the
    test [timeLeft < 0] does not replace it, and the entry is put back
    through [Set] with the TTL 0, the one that [newNode] reads as "no
    expiration". *)
Theorem init_zero_remainder_sets_ttl_zero
    (arch : Arch) (now : Time) (name : string) (w : World)
    (content : json.bytes) (n : node) :
  HasSuffix name ".store.json" = true ->
  os_ReadFile (filepath_Join (cacheFolder (store w)) name) (disk w) = inr content ->
  json.Unmarshal content = inr n ->
  DeleteTimestamp n = UnixMilli now ->
  init_file arch now name w = (None, (Set_ arch now (Key n) (Value n) 0 w).2).
Proof.
  intros Hs Hr Hu Hd. unfold init_file. rewrite Hs. cbn [negb].
  unfold bind at 1, gets at 1. unfold bind at 1, os_read, gets.
  rewrite Hr, Hu, Hd, Z.sub_diag.
  change (wrap 64 0) with 0. cbn [Z.ltb Z.compare].
  replace (to_int arch 0) with 0 by (destruct arch; reflexivity).
  unfold bind, ret. destruct (Set_ _ _ _ _ _ _); reflexivity.
Qed.

Lemma init_zero_remainder_sets_ttl_zero_witness :
  init_file Arch64 5000000000 saved_name (mkWorld (mkStore ∅ "cache") saved_disk)
  = (None, (Set_ Arch64 5000000000 "k" (Str "v") 0
              (mkWorld (mkStore ∅ "cache") saved_disk)).2).
Proof.
  apply (init_zero_remainder_sets_ttl_zero Arch64 5000000000 saved_name
           (mkWorld (mkStore ∅ "cache") saved_disk)
           (json.Text (json.Object
              [("key"%string, json.String_ "k");
               ("value"%string, json.String_ "v");
               ("deleteTimestamp"%string, json.Number (json.Integer 5000))]))
           (mkNode "k" (Str "v") 5000)).
  - vm_compute. reflexivity.
  - vm_compute. reflexivity.
  - vm_compute. reflexivity.
  - reflexivity.
Defined.

(** A store restarted at the very millisecond of the deadline: with a
    64-bit [int] the entry comes back already expired (deadline 4999),
    with a 32-bit [int] it comes back for another 2147483647 ms. *)
Example restart_at_the_deadline :
  data (store (final (NewKeyValueStore Arch64 5000000000 "cache" saved_disk)))
  = {[ "k"%string := mkNode "k" (Str "v") 4999 ]}
  /\ data (store (final (NewKeyValueStore Arch32 5000000000 "cache" saved_disk)))
     = {[ "k"%string := mkNode "k" (Str "v") 2147488647 ]}.
Proof. split; vm_compute; reflexivity. Qed.

(** One millisecond later the remainder is negative and the TTL is 1. *)
Example restart_after_the_deadline :
  data (store (final (NewKeyValueStore Arch64 5001000000 "cache" saved_disk)))
  = {[ "k"%string := mkNode "k" (Str "v") 5002 ]}.
Proof. vm_compute. reflexivity. Qed.

(** ** C5: the mirror file format *)

Section Codec.
Import json.

Lemma mapM_inr {A B} (f : A -> error + B) l ys :
  mapM f l = inr ys -> Forall2 (fun x y => f x = inr y) l ys.
Proof.
  revert ys. induction l as [|x l IH]; intros ys H; cbn in H.
  - injection H as <-. constructor.
  - destruct (f x) as [e|y] eqn:Hx; [discriminate|].
    destruct (mapM f l) as [e|ys'] eqn:Hl; [discriminate|].
    injection H as <-. constructor; [assumption | apply IH; reflexivity].
Qed.

Lemma Forall2_mapM {A B} (f : A -> error + B) l ys :
  Forall2 (fun x y => f x = inr y) l ys -> mapM f l = inr ys.
Proof.
  induction 1 as [|x y l ys Hx _ IH]; cbn; [reflexivity|].
  rewrite Hx, IH. reflexivity.
Qed.

Lemma sequence_inr {A} (l : list (string * (error + A))) ms :
  sequence l = inr ms -> Forall2 (fun p q => p = (q.1, inr q.2)) l ms.
Proof.
  intros H. apply mapM_inr in H.
  eapply Forall2_impl; [exact H|]. cbn.
  intros [k [e|a]] q Hq; cbn in Hq; [discriminate|].
  injection Hq as <-. reflexivity.
Qed.

Lemma forallb_Forall {A} (f : A -> bool) (l : list A) :
  forallb f l = true <-> Forall (fun x => f x = true) l.
Proof.
  induction l as [|x l IH]; cbn.
  - split; [constructor | reflexivity].
  - rewrite andb_true_iff, IH. split.
    + intros [H1 H2]. constructor; assumption.
    + intros H. inversion H; subst. split; assumption.
Qed.

Lemma ParseFloat_Integer n :
  - 2 ^ 63 <= n < 2 ^ 64 -> exists f, ParseFloat (Integer n) = Some f.
Proof.
  intros H. unfold ParseFloat.
  assert (Hlt : Z.abs n < overflow_threshold).
  { assert (2 ^ 64 < overflow_threshold) by (vm_compute; reflexivity).
    assert (2 ^ 63 < 2 ^ 64) by (vm_compute; reflexivity).
    generalize dependent (2 ^ 64). generalize dependent (2 ^ 63).
    generalize dependent overflow_threshold. intros. lia. }
  apply Z.ltb_lt in Hlt. rewrite Hlt. eexists. reflexivity.
Qed.

Lemma ParseFloat_FormatFloat f n :
  FormatFloat f = Some n -> exists f', ParseFloat n = Some f'.
Proof.
  assert (Hth : 10 ^ 21 < overflow_threshold) by (vm_compute; reflexivity).
  assert (Hbound : forall v s, 0 <= v -> v < 10 ^ 21 ->
            exists f', ParseFloat (Integer (if s : bool then - v else v)) = Some f').
  { intros v s H0 H1. unfold ParseFloat.
    replace (Z.abs _ <? overflow_threshold) with true; [eexists; reflexivity|].
    symmetry. apply Z.ltb_lt. destruct s; lia. }
  destruct f as [[|]| | |s m e]; unfold FormatFloat; intros H.
  - injection H as <-. eexists. reflexivity.
  - injection H as <-. eexists. reflexivity.
  - inversion H.
  - inversion H.
  - destruct (0 <=? e) eqn:He.
    + destruct (Z.pos m * 2 ^ e <? 10 ^ 21) eqn:Hv; injection H as <-.
      * apply Hbound; [|apply Z.ltb_lt; assumption].
        apply Z.mul_nonneg_nonneg; [lia|]. apply Z.pow_nonneg. lia.
      * eexists. reflexivity.
    + destruct (_ && _) eqn:Hc; injection H as <-.
      * apply andb_prop in Hc as [_ Hc]. apply Hbound; [|apply Z.ltb_lt; assumption].
        apply Z.div_pos; [lia|]. apply Z.pow_pos_nonneg; [lia|].
        apply Z.leb_gt in He. lia.
      * eexists. reflexivity.
Qed.

Lemma decodes_elems (l : list any) js :
  Forall (fun v => well_typed v = true -> forall j, marshal_any v = inr j -> decodes v j) l ->
  forallb well_typed l = true ->
  mapM marshal_any l = inr js ->
  exists gs, mapM unmarshal_any js = inr gs
             /\ forallb is_generic gs = true
             /\ (forallb is_plain l = true -> gs = l).
Proof.
  intros HP Hwt Hm. apply mapM_inr in Hm.
  induction Hm as [|x j l js Hx _ IH]; cbn.
  - exists []. repeat split; reflexivity.
  - inversion HP as [|? ? HPx HPl]; subst.
    cbn in Hwt. apply andb_prop in Hwt as [Hwx Hwl].
    destruct (HPx Hwx j Hx) as (g & Hg & Hgen & Hplain).
    destruct (IH HPl Hwl) as (gs & Hgs & Hgens & Hplains).
    rewrite Hg, Hgs. exists (g :: gs). split; [reflexivity|]. split.
    + cbn. rewrite Hgen, Hgens. reflexivity.
    + intros Hp. apply andb_prop in Hp as [Hp1 Hp2].
      rewrite (Hplain Hp1), (Hplains Hp2). reflexivity.
Qed.

(** Every member of an encoded map or struct decodes to a generic
    value. *)
Lemma decodes_members (entries : list (string * any))
    (coded : list (string * (error + value))) ms :
  Forall (fun p : string * any =>
            well_typed p.2 = true -> forall j, marshal_any p.2 = inr j -> decodes p.2 j)
         entries ->
  forallb (fun p : string * any => well_typed p.2) entries = true ->
  coded ≡ₚ map (fun p : string * any => (p.1, marshal_any p.2)) entries ->
  sequence coded = inr ms ->
  Forall (fun q : string * value =>
            exists g, unmarshal_any q.2 = inr g /\ is_generic g = true) ms.
Proof.
  intros HP Hwt Hperm Hs. apply sequence_inr in Hs.
  assert (Hall : Forall (fun c : string * (error + value) =>
              forall j, c.2 = inr j ->
                exists g, unmarshal_any j = inr g /\ is_generic g = true) coded).
  { rewrite Hperm. apply Forall_map.
    apply forallb_Forall in Hwt. clear Hperm Hs.
    induction HP as [|p entries' H1 _ IH]; [constructor|].
    inversion Hwt as [|? ? H2 Hwt']; subst. constructor; [|apply IH; assumption].
    cbn. intros j Hj.
    destruct (H1 H2 j Hj) as (g & Hg & Hgen & _). exists g. split; assumption. }
  clear Hperm HP Hwt. induction Hs as [|c q coded ms Hc _ IH]; [constructor|].
  apply Forall_cons_1 in Hall as [Hc1 Hall]. constructor; [|apply IH; assumption].
  subst c. apply (Hc1 q.2). reflexivity.
Qed.

Lemma decode_members (ms : list (string * value)) :
  Forall (fun q : string * value =>
            exists g, unmarshal_any q.2 = inr g /\ is_generic g = true) ms ->
  exists es, sequence (map (fun p : string * value => (p.1, unmarshal_any p.2)) ms) = inr es
             /\ Forall (fun e : string * any => is_generic e.2 = true) es.
Proof.
  induction 1 as [|q ms (g & Hg & Hgen) _ (es & Hes & Hgens)].
  - exists []. split; [reflexivity | constructor].
  - exists ((q.1, g) :: es). split.
    + unfold sequence in *. cbn. rewrite Hg. cbn. rewrite Hes. reflexivity.
    + constructor; assumption.
Qed.

Lemma generic_object (es : list (string * any)) :
  Forall (fun e : string * any => is_generic e.2 = true) es ->
  is_generic (Map (map_to_list (list_to_map (reverse es) : gmap string any))) = true.
Proof.
  intros H. cbn. apply forallb_Forall, Forall_forall. intros [k v] Hkv.
  apply elem_of_map_to_list, elem_of_list_to_map_2 in Hkv.
  rewrite elem_of_reverse in Hkv.
  rewrite Forall_forall in H. apply (H (k, v) Hkv).
Qed.

Lemma decodes_marshal (v : any) :
  well_typed v = true -> forall j, marshal_any v = inr j -> decodes v j.
Proof.
  induction v as [|b|n|f|s|l IH|m IH|m IH|] using any_induction;
    intros Hwt j Hj; cbn [marshal_any] in Hj; unfold decodes.
  - injection Hj as <-. exists Nil. repeat split; reflexivity.
  - injection Hj as <-. exists (Bool b). repeat split; reflexivity.
  - injection Hj as <-. cbn [well_typed] in Hwt. apply andb_prop in Hwt as [H1 H2].
    apply Z.leb_le in H1. apply Z.ltb_lt in H2.
    destruct (ParseFloat_Integer n (conj H1 H2)) as [f Hf].
    exists (Float64 f). cbn [unmarshal_any is_generic is_plain]. rewrite Hf.
    repeat split; discriminate.
  - destruct (FormatFloat f) as [n|] eqn:Hn; [|discriminate]. injection Hj as <-.
    destruct (ParseFloat_FormatFloat _ _ Hn) as [f' Hf'].
    exists (Float64 f'). cbn [unmarshal_any is_generic is_plain]. rewrite Hf'.
    repeat split; discriminate.
  - injection Hj as <-. exists (Str (toValidUTF8 s)).
    cbn [unmarshal_any is_generic is_plain].
    repeat split. intros H. apply String.eqb_eq in H. rewrite H. reflexivity.
  - destruct (mapM marshal_any l) as [e|js] eqn:Hjs; [discriminate|]. injection Hj as <-.
    destruct (decodes_elems l js IH Hwt Hjs) as (gs & Hgs & Hgen & Hplain).
    exists (Slice gs). cbn [unmarshal_any is_generic is_plain]. rewrite Hgs.
    repeat split; [assumption|].
    intros Hp. rewrite (Hplain Hp). reflexivity.
  - destruct (sequence _) as [e|ms] eqn:Hms; [discriminate|]. injection Hj as <-.
    pose proof (decodes_members m _ ms IH Hwt (merge_sort_Permutation _ _) Hms) as Hdec.
    destruct (decode_members (map (fun p : string * value => (toValidUTF8 p.1, p.2)) ms))
      as (es & Hes & Hgen).
    { apply Forall_map. eapply Forall_impl; [exact Hdec|]. cbn. tauto. }
    eexists. cbn [unmarshal_any]. rewrite Hes. split; [reflexivity|].
    split; [apply generic_object; assumption | discriminate].
  - destruct (sequence _) as [e|ms] eqn:Hms; [discriminate|]. injection Hj as <-.
    pose proof (decodes_members m _ ms IH Hwt (reflexivity _) Hms) as Hdec.
    destruct (decode_members ms Hdec) as (es & Hes & Hgen).
    eexists. cbn [unmarshal_any]. rewrite Hes. split; [reflexivity|].
    split; [apply generic_object; assumption | discriminate].
  - discriminate.
Qed.

End Codec.

(** C5 (as the code has it).  Decoding the mirror file of an entry gives
    back its deadline exactly, its key with every byte that is not valid
    UTF-8 replaced by U+FFFD (so exactly, for a valid key), and a value
    of one of the dynamic types [nil], [bool], [float64], [string],
    [[]any], [map[string]any]: the original value when that is built from
    [nil], booleans, valid strings and slices of them. *)
Theorem Unmarshal_Marshal (x : node) (content : json.bytes) :
  well_typed (Value x) = true ->
  in_int64 (DeleteTimestamp x) = true ->
  json.Marshal x = inr content ->
  exists y,
    json.Unmarshal content = inr y
    /\ Key y = json.toValidUTF8 (Key x)
    /\ DeleteTimestamp y = DeleteTimestamp x
    /\ is_generic (Value y) = true
    /\ (is_plain (Value x) = true -> Value y = Value x).
Proof.
  intros Hwt Hts Hm. unfold json.Marshal in Hm.
  destruct (json.marshal_any (Value x)) as [e|j] eqn:Hj; [discriminate|].
  injection Hm as <-.
  destruct (decodes_marshal (Value x) Hwt j Hj) as (g & Hg & Hgen & Hplain).
  exists (mkNode (json.toValidUTF8 (Key x)) g (DeleteTimestamp x)).
  split; [|repeat split; assumption].
  cbn [json.Unmarshal json.set_fields].
  change (json.set_field (mkNode "" Nil 0) "key" (json.String_ (json.toValidUTF8 (Key x))))
    with (@inr error node (mkNode (json.toValidUTF8 (Key x)) Nil 0)).
  cbv beta iota.
  replace (json.set_field (mkNode (json.toValidUTF8 (Key x)) Nil 0) "value" j)
    with (@inr error node (mkNode (json.toValidUTF8 (Key x)) g 0)).
  2:{ unfold json.set_field. cbn [json.foldName]. 
      change (String.eqb (json.foldName "value") "KEY") with false.
      change (String.eqb (json.foldName "value") "VALUE") with true.
      cbv iota. rewrite Hg. reflexivity. }
  cbv beta iota.
  unfold json.set_field.
  change (String.eqb (json.foldName "deleteTimestamp") "KEY") with false.
  change (String.eqb (json.foldName "deleteTimestamp") "VALUE") with false.
  change (String.eqb (json.foldName "deleteTimestamp") "DELETETIMESTAMP") with true.
  cbv iota. unfold json.ParseInt. rewrite Hts. reflexivity.
Qed.

Lemma Unmarshal_Marshal_witness :
  exists y,
    json.Unmarshal
      (json.Text (json.Object
         [("key"%string, json.String_ "key1");
          ("value"%string, json.String_ "value1");
          ("deleteTimestamp"%string, json.Number (json.Integer 1100))]))
    = inr y
    /\ Value y = Str "value1".
Proof.
  destruct (Unmarshal_Marshal (mkNode "key1" (Str "value1") 1100)
              (json.Text (json.Object
                 [("key"%string, json.String_ "key1");
                  ("value"%string, json.String_ "value1");
                  ("deleteTimestamp"%string, json.Number (json.Integer 1100))])))
    as (y & H1 & _ & _ & _ & H5).
  - reflexivity.
  - reflexivity.
  - vm_compute. reflexivity.
  - exists y. split; [exact H1 | apply H5; vm_compute; reflexivity].
Defined.

(** C5, refuted as stated: the struct of the repository's test comes
    back as a map with a [float64] in it, and a key that is not valid
    UTF-8 comes back as U+FFFD. *)
Lemma Unmarshal_Marshal_changes_value :
  (exists content y,
     json.Marshal alice = inr content
     /\ json.Unmarshal content = inr y
     /\ Value y = Map [("Age"%string, Float64 (S754_finite false 8444249301319680 (-48)));
                      ("Name"%string, Str "Alice")]
     /\ Value y <> Value alice)
  /\ (exists content y,
        json.Marshal odd_key = inr content
        /\ json.Unmarshal content = inr y
        /\ Key y = json.replacement
        /\ Key y <> Key odd_key).
Proof.
  split.
  - eexists. eexists. split; [vm_compute; reflexivity|].
    split; [vm_compute; reflexivity|]. split; [reflexivity | discriminate].
  - eexists. eexists. split; [vm_compute; reflexivity|].
    split; [vm_compute; reflexivity|]. split; [reflexivity | discriminate].
Qed.

(** ** C10: every entry is stored under its own key *)

Lemma key_invariant_insert d key n :
  key_invariant d -> Key n = key -> key_invariant (<[key := n]> d).
Proof.
  intros Hd Hn k m. rewrite lookup_insert. case_decide as Hk.
  - intros [= <-]. congruence.
  - apply Hd.
Qed.

Lemma key_invariant_delete d key : key_invariant d -> key_invariant (delete key d).
Proof.
  intros Hd k m Hm. apply lookup_delete_Some in Hm as [_ Hm]. apply (Hd k m Hm).
Qed.

Lemma Set_key_invariant arch now key value ttl w :
  key_invariant (data (store w)) ->
  key_invariant (data (store (Set_ arch now key value ttl w).2)).
Proof.
  intros H. rewrite Set_store. cbn [data].
  apply key_invariant_insert; [assumption | reflexivity].
Qed.

Lemma Delete_key_invariant key w :
  key_invariant (data (store w)) -> key_invariant (data (store (Delete key w).2)).
Proof. intros H. rewrite Delete_store. apply key_invariant_delete, H. Qed.

Lemma clean_range_key_invariant now visit w :
  key_invariant (data (store w)) ->
  key_invariant (data (store (final (clean_range now visit w)))).
Proof.
  revert w. induction visit as [|k visit IH]; intros w H; [exact H|].
  cbn [clean_range]. destruct (data (store w) !! k) as [n|] eqn:Hk; [|apply IH, H].
  destruct (nodeIsExpired now n); [|apply IH, H].
  unfold set_data, modify.
  match goal with |- context [deleteInCache k ?w1] =>
    pose proof (deleteInCache_store k w1) as Hs;
    destruct (deleteInCache k w1) as [[e|] w2] end; cbn [snd] in Hs.
  - cbn [final]. rewrite Hs. apply key_invariant_delete, H.
  - apply IH. rewrite Hs. apply key_invariant_delete, H.
Qed.

Lemma step_key_invariant arch now c w :
  key_invariant (data (store w)) ->
  key_invariant (data (store (step arch now c w).2)).
Proof.
  intros H. destruct c as [key value ttl|key|key| |visit]; cbn [step].
  - pose proof (Set_key_invariant arch now key value ttl w H) as H'.
    destruct (Set_ _ _ _ _ _ _). exact H'.
  - rewrite Get_eq. exact H.
  - pose proof (Delete_key_invariant key w H) as H'.
    destruct (Delete _ _). exact H'.
  - rewrite Length_eq. exact H.
  - pose proof (clean_range_key_invariant now visit w H) as H'.
    destruct (clean_range _ _ _); exact H'.
Qed.

Lemma run_key_invariant arch calls w :
  key_invariant (data (store w)) ->
  key_invariant (data (store (run arch calls w).2)).
Proof.
  revert w. induction calls as [|[now c] calls IH]; intros w H; [exact H|].
  cbn [run]. pose proof (step_key_invariant arch now c w H) as H'.
  destruct (step arch now c w) as [r w']. cbn [snd] in H'.
  specialize (IH w' H').
  destruct (run arch calls w') as [rs w'']. destruct r; assumption.
Qed.

Lemma init_file_eq arch now name w :
  init_file arch now name w
  = if negb (HasSuffix name ".store.json") then (None, w)
    else match os_ReadFile (filepath_Join (cacheFolder (store w)) name) (disk w) with
         | inl err => (Some err, w)
         | inr fileData =>
             match json.Unmarshal fileData with
             | inl err => (Some err, w)
             | inr n =>
                 let timeLeft := wrap 64 (DeleteTimestamp n - UnixMilli now) in
                 let timeLeft := if timeLeft <? 0 then 1 else timeLeft in
                 (None, (Set_ arch now (Key n) (Value n) (to_int arch timeLeft) w).2)
             end
         end.
Proof.
  unfold init_file. destruct (negb _); [reflexivity|].
  unfold bind at 1, gets at 1. unfold bind at 1, os_read, gets. cbv beta iota.
  destruct (os_ReadFile _ _) as [e|content]; [reflexivity|].
  destruct (json.Unmarshal content) as [e|n]; [reflexivity|].
  unfold bind, ret. cbv zeta. destruct (Set_ _ _ _ _ _ _). reflexivity.
Qed.

(** What the loop of [init] does with a directory entry. *)
Lemma init_file_cases arch now name w :
  init_file arch now name w = (None, w)
  \/ (exists e, init_file arch now name w = (Some e, w))
  \/ (exists n ttl, init_file arch now name w
                    = (None, (Set_ arch now (Key n) (Value n) ttl w).2)).
Proof.
  rewrite init_file_eq. destruct (negb _); [left; reflexivity|].
  destruct (os_ReadFile _ _) as [e|content]; [right; left; exists e; reflexivity|].
  destruct (json.Unmarshal content) as [e|n]; [right; left; exists e; reflexivity|].
  right. right. eexists n, _. reflexivity.
Qed.

Lemma init_files_key_invariant arch now entries w :
  key_invariant (data (store w)) ->
  key_invariant (data (store (init_files arch now entries w).2)).
Proof.
  revert w. induction entries as [|name entries IH]; intros w H; [exact H|].
  cbn [init_files]. unfold bind.
  destruct (init_file_cases arch now name w) as [Hc|[[e Hc]|(n & ttl & Hc)]]; rewrite Hc.
  - apply IH, H.
  - exact H.
  - apply IH, Set_key_invariant, H.
Qed.

Lemma init_key_invariant arch now w :
  key_invariant (data (store w)) ->
  key_invariant (data (store (init arch now w).2)).
Proof.
  intros H. unfold init, bind at 1, gets at 1.
  destruct (String.eqb _ _); [exact H|].
  unfold bind at 1, os at 1, os_MkdirAll.
  destruct (decide _); [exact H|].
  unfold bind, os_read, gets. cbn [disk store].
  destruct (os_ReadDir _ _) as [e|entries]; [exact H|].
  apply init_files_key_invariant. exact H.
Qed.

Lemma NewKeyValueStore_key_invariant arch now folder fs :
  key_invariant (data (store (final (NewKeyValueStore arch now folder fs)))).
Proof.
  unfold NewKeyValueStore.
  pose proof (init_key_invariant arch now (mkWorld (mkStore ∅ folder) fs)) as H.
  assert (H0 : key_invariant (data (store (mkWorld (mkStore ∅ folder) fs)))).
  { intros k n Hk. cbn [store data] in Hk. rewrite lookup_empty in Hk. discriminate. }
  specialize (H H0).
  destruct (init _ _ _) as [[e|] w']; cbn [final snd] in *; exact H.
Qed.

(** C10.  In every state the store can reach (construction with its
    replay of the cache folder, then any calls and sweeps) each entry of
    the map carries the key it is stored under.  [Set] stores the node
    it builds from its key argument at that key, and the replay puts a
    recovered node back through [Set] under its persisted key. *)
Theorem entries_carry_their_key
    (arch : Arch) (now : Time) (folder : string) (fs : FS) (calls : list (Time * call)) :
  key_invariant
    (data (store (run arch calls (final (NewKeyValueStore arch now folder fs))).2))
  /\ (forall t key value ttl w,
        data (store (Set_ arch t key value ttl w).2) !! key
        = Some (newNode arch t key value ttl)
        /\ Key (newNode arch t key value ttl) = key)
  /\ (forall t name w,
        init_file arch t name w = (None, w)
        \/ (exists e, init_file arch t name w = (Some e, w))
        \/ (exists n ttl, init_file arch t name w
                          = (None, (Set_ arch t (Key n) (Value n) ttl w).2))).
Proof.
  split; [|split].
  - apply run_key_invariant, NewKeyValueStore_key_invariant.
  - intros t key value ttl w. split; [|reflexivity].
    rewrite Set_store. apply lookup_insert_eq.
  - intros t name w. apply init_file_cases.
Qed.

(** ** C9: a store without a cache folder *)

Lemma newNode_nonzero arch now key value ttl :
  ttl <> 0 -> plain_node (newNode arch now key value ttl) = InMemory.newNode now key value ttl.
Proof.
  intros H. unfold newNode, InMemory.newNode, plain_node.
  apply Z.eqb_neq in H. rewrite H. reflexivity.
Qed.

Lemma no_folder_quiet arch now n key w :
  cacheFolder (store w) = ""%string ->
  saveInCache n w = (None, w)
  /\ deleteInCache key w = (None, w)
  /\ init arch now w = (None, w).
Proof.
  intros H. rewrite saveInCache_eq, deleteInCache_eq.
  unfold init, bind, gets. rewrite H. repeat split; reflexivity.
Qed.

Lemma clean_range_no_folder now visit w (d : InMemory.KeyValueStore) :
  cacheFolder (store w) = ""%string ->
  InMemory.data d = plain_node <$> data (store w) ->
  exists w',
    clean_range now visit w = Returned tt w'
    /\ cacheFolder (store w') = ""%string
    /\ disk w' = disk w
    /\ InMemory.data (InMemory.clean_range now visit d) = plain_node <$> data (store w').
Proof.
  revert w d. induction visit as [|k visit IH]; intros w d Hf Hd.
  - exists w. repeat split; assumption.
  - cbn [clean_range InMemory.clean_range]. rewrite Hd, lookup_fmap.
    destruct (data (store w) !! k) as [n|] eqn:Hk; cbn [fmap option_fmap option_map].
    + change (InMemory.nodeIsExpired now (plain_node n)) with (nodeIsExpired now n).
      destruct (nodeIsExpired now n).
      * unfold set_data, modify.
        match goal with |- context [deleteInCache k ?w1] =>
          destruct (no_folder_quiet Arch64 now n k w1 Hf) as (_ & -> & _) end.
        destruct (IH (mkWorld (mkStore (delete k (data (store w))) (cacheFolder (store w)))
                              (disk w))
                     (InMemory.mkStore (delete k (plain_node <$> data (store w)))))
          as (w' & H1 & H2 & H3 & H4).
        { exact Hf. }
        { cbn [InMemory.data store data]. rewrite fmap_delete. reflexivity. }
        exists w'. repeat split; assumption.
      * destruct (IH w d Hf Hd) as (w' & H1 & H2 & H3 & H4).
        exists w'. repeat split; assumption.
    + destruct (IH w d Hf Hd) as (w' & H1 & H2 & H3 & H4).
      exists w'. repeat split; assumption.
Qed.

Lemma step_no_folder arch now c w (d : InMemory.KeyValueStore) :
  cacheFolder (store w) = ""%string ->
  InMemory.data d = plain_node <$> data (store w) ->
  nonzero_ttl (now, c) = true ->
  (step arch now c w).1 = (InMemory.step now c d).1
  /\ (forall e, (step arch now c w).1 <> RPanic e)
  /\ cacheFolder (store (step arch now c w).2) = ""%string
  /\ disk (step arch now c w).2 = disk w
  /\ InMemory.data (InMemory.step now c d).2
     = plain_node <$> data (store (step arch now c w).2).
Proof.
  intros Hf Hd Hc. destruct c as [key value ttl|key|key| |visit]; cbn [step InMemory.step].
  - rewrite Set_eq.
    match goal with |- context [saveInCache ?n ?w1] =>
      destruct (no_folder_quiet arch now n key w1 Hf) as (-> & _ & _) end.
    cbn [fst snd store data cacheFolder disk InMemory.Set_ modify InMemory.data].
    unfold InMemory.Set_, modify. cbn [fst snd InMemory.data].
    repeat split; try assumption; try discriminate.
    rewrite fmap_insert, Hd, newNode_nonzero; [reflexivity|].
    unfold nonzero_ttl in Hc. cbn in Hc. apply negb_true_iff, Z.eqb_neq in Hc. exact Hc.
  - rewrite Get_eq. unfold InMemory.Get, bind, gets, index, ret.
    rewrite Hd, lookup_fmap. cbn [fst snd].
    destruct (data (store w) !! key) as [n|]; cbn [fmap option_fmap option_map negb orb].
    + change (InMemory.nodeIsExpired now (plain_node n)) with (nodeIsExpired now n).
      destruct (nodeIsExpired now n); repeat split; try assumption; discriminate.
    + repeat split; try assumption; discriminate.
  - rewrite Delete_eq.
    match goal with |- context [deleteInCache key ?w1] =>
      destruct (no_folder_quiet arch now (mkNode "" Nil 0) key w1 Hf) as (_ & -> & _) end.
    unfold InMemory.Delete, modify. cbn [fst snd store data cacheFolder disk InMemory.data].
    repeat split; try assumption; try discriminate.
    rewrite fmap_delete, Hd. reflexivity.
  - rewrite Length_eq, <- Length_fold.
    unfold InMemory.Length, bind, gets, ret. cbn [fst snd].
    repeat split; try assumption; try discriminate.
    rewrite Hd, map_fold_fmap. reflexivity.
  - destruct (clean_range_no_folder now visit w d Hf Hd) as (w' & -> & H2 & H3 & H4).
    cbn [fst snd]. repeat split; try assumption; discriminate.
Qed.

Lemma run_no_folder arch calls w (d : InMemory.KeyValueStore) :
  cacheFolder (store w) = ""%string ->
  InMemory.data d = plain_node <$> data (store w) ->
  forallb nonzero_ttl calls = true ->
  (run arch calls w).1 = (InMemory.run calls d).1
  /\ disk (run arch calls w).2 = disk w
  /\ InMemory.data (InMemory.run calls d).2 = plain_node <$> data (store (run arch calls w).2).
Proof.
  revert w d. induction calls as [|[now c] calls IH]; intros w d Hf Hd Hc.
  - repeat split; assumption.
  - cbn [forallb] in Hc. apply andb_prop in Hc as [Hc1 Hc2].
    destruct (step_no_folder arch now c w d Hf Hd Hc1) as (H1 & H2 & H3 & H4 & H5).
    cbn [run InMemory.run].
    destruct (step arch now c w) as [r w1]. destruct (InMemory.step now c d) as [r' d1].
    cbn [fst snd] in *. subst r'.
    destruct (IH w1 d1 H3 H5 Hc2) as (I1 & I2 & I3).
    destruct (run arch calls w1) as [rs w2]. destruct (InMemory.run calls d1) as [rs' d2].
    cbn [fst snd] in *. subst rs'. rewrite <- H4.
    destruct r; try (repeat split; assumption).
    exfalso. apply (H2 e). reflexivity.
Qed.

(** C9 (as the code has it).  Without a cache folder the construction
    reads nothing, the mirror write, the mirror delete and the startup
    load do nothing and return no error, the files are never touched, and
    every sequence of [Set], [Get], [Delete], [Length] and sweeps in which
    no [Set] has the TTL 0 gets the replies of the in-memory store. *)
Theorem no_folder_is_in_memory
    (arch : Arch) (now : Time) (fs : FS) (calls : list (Time * call)) :
  forallb nonzero_ttl calls = true ->
  NewKeyValueStore arch now "" fs = Returned tt (mkWorld (mkStore ∅ "") fs)
  /\ (forall n key w, cacheFolder (store w) = ""%string ->
        saveInCache n w = (None, w)
        /\ deleteInCache key w = (None, w)
        /\ init arch now w = (None, w))
  /\ (run arch calls (mkWorld (mkStore ∅ "") fs)).1
     = (InMemory.run calls InMemory.NewKeyValueStore).1
  /\ disk (run arch calls (mkWorld (mkStore ∅ "") fs)).2 = fs.
Proof.
  intros Hc. split; [reflexivity|]. split.
  - intros n key w Hf. apply no_folder_quiet. exact Hf.
  - destruct (run_no_folder arch calls (mkWorld (mkStore ∅ "") fs)
                InMemory.NewKeyValueStore) as (H1 & H2 & _).
    + reflexivity.
    + cbn [InMemory.data InMemory.NewKeyValueStore store data]. rewrite fmap_empty. reflexivity.
    + exact Hc.
    + split; [exact H1 | exact H2].
Qed.

Lemma no_folder_is_in_memory_witness :
  (run Arch64 [(0, CallSet "a" (Str "1") 50); (0, CallSet "b" (Str "2") 1000);
               (0, CallLength); (80000000, CallGet "a"); (80000000, Sweep ["a"; "b"]%string);
               (80000000, CallLength); (80000000, CallDelete "b")]
       (mkWorld (mkStore ∅ "") (mkFS ∅ ∅))).1
  = [RSet None; RSet None; RLength 2; RGet Nil false; RSweep; RLength 1; RDelete None].
Proof.
  destruct (no_folder_is_in_memory Arch64 0 (mkFS ∅ ∅)
              [(0, CallSet "a" (Str "1") 50); (0, CallSet "b" (Str "2") 1000);
               (0, CallLength); (80000000, CallGet "a");
               (80000000, Sweep ["a"; "b"]%string);
               (80000000, CallLength); (80000000, CallDelete "b")])
    as (_ & _ & H & _).
  - reflexivity.
  - rewrite H. vm_compute. reflexivity.
Defined.

(** C9, refuted as stated: after [Set(k, v, 0)] the two stores answer
    [Get(k)] differently, at the instant of the [Set] with a 64-bit [int]
    and one millisecond later with a 32-bit [int]. *)
Lemma no_folder_differs_at_ttl_zero :
  (run Arch64 [(0, CallSet "k" (Str "v") 0); (0, CallGet "k")] (fresh "")).1
  = [RSet None; RGet Nil false]
  /\ (InMemory.run [(0, CallSet "k" (Str "v") 0); (0, CallGet "k")]
        InMemory.NewKeyValueStore).1
     = [RSet None; RGet (Str "v") true]
  /\ (run Arch32 [(0, CallSet "k" (Str "v") 0); (1000000, CallGet "k")] (fresh "")).1
     = [RSet None; RGet (Str "v") true]
  /\ (InMemory.run [(0, CallSet "k" (Str "v") 0); (1000000, CallGet "k")]
        InMemory.NewKeyValueStore).1
     = [RSet None; RGet Nil false].
Proof. repeat split; vm_compute; reflexivity. Qed.

(** * Further properties of the code *)

(** ** Deadlines *)

Lemma wrap_small (z : Z) : - 2 ^ 63 <= z < 2 ^ 63 -> wrap 64 z = z.
Proof.
  intros H. unfold wrap. change (64 - 1) with 63.
  change (2 ^ 64) with (2 * 2 ^ 63). 
  generalize dependent (2 ^ 63). intros p H.
  rewrite Z.mod_small by lia. lia.
Qed.

Lemma Duration_mul_ms (ttl : Z) :
  -9223372036854 <= ttl <= 9223372036854 ->
  Duration_mul ttl Millisecond = ttl * 1000000.
Proof.
  intros H. unfold Duration_mul, Millisecond. apply wrap_small.
  change (2 ^ 63) with 9223372036854775808. lia.
Qed.

Lemma newNode_deadline arch now key value ttl :
  ttl <> 0 -> -9223372036854 <= ttl <= 9223372036854 ->
  newNode arch now key value ttl = mkNode key value (UnixMilli now + ttl).
Proof.
  intros H0 H. unfold newNode. apply Z.eqb_neq in H0. rewrite H0.
  rewrite Duration_mul_ms by assumption. rewrite UnixMilli_add_ms. reflexivity.
Qed.

(** X1.  After [Set(k, v, ttl)] with a TTL other than 0 whose nanosecond
    count fits an [int64], [Get(k)] returns [(v, true)] up to and
    including the millisecond [ttl] after the call and [(nil, false)]
    from the next millisecond on, whatever became of the mirror file.  A
    negative TTL gives an entry that is never found. *)
Theorem Get_after_Set
    (arch : Arch) (now now' : Time) (key : string) (value : any) (ttl : Z) (w : World) :
  ttl <> 0 ->
  -9223372036854 <= ttl <= 9223372036854 ->
  (Get now' key (Set_ arch now key value ttl w).2).1
  = if UnixMilli now' >? UnixMilli now + ttl then (Nil, false) else (value, true).
Proof.
  intros H0 H. rewrite Get_eq, Set_store. cbn [fst data].
  rewrite lookup_insert_eq, newNode_deadline by assumption. reflexivity.
Qed.

Lemma Get_after_Set_witness :
  (Get 1100000000 "key1" (Set_ Arch64 1000000000 "key1" (Str "value1") 100 (fresh "cache")).2).1
  = (Str "value1", true)
  /\ (Get 1101000000 "key1"
        (Set_ Arch64 1000000000 "key1" (Str "value1") 100 (fresh "cache")).2).1
     = (Nil, false).
Proof.
  split.
  - rewrite (Get_after_Set Arch64 1000000000 1100000000 "key1" (Str "value1") 100
               (fresh "cache")); [reflexivity | discriminate | lia].
  - rewrite (Get_after_Set Arch64 1000000000 1101000000 "key1" (Str "value1") 100
               (fresh "cache")); [reflexivity | discriminate | lia].
Defined.

(** X2.  [Set] on a key replaces its entry, value and deadline, and
    leaves every other key as it was: the map after two [Set]s of the
    same key is the map after the second alone. *)
Theorem Set_replaces
    (arch : Arch) (t1 t2 : Time) (key : string) (v1 v2 : any) (ttl1 ttl2 : Z) (w : World) :
  data (store (Set_ arch t2 key v2 ttl2 (Set_ arch t1 key v1 ttl1 w).2).2)
  = data (store (Set_ arch t2 key v2 ttl2 w).2)
  /\ (forall now k, k <> key ->
        (Get now k (Set_ arch t1 key v1 ttl1 w).2).1 = (Get now k w).1).
Proof.
  split.
  - rewrite !Set_store. cbn [data]. apply insert_insert_eq.
  - intros now k Hk. rewrite !Get_eq, Set_store. cbn [fst data].
    rewrite lookup_insert_ne by congruence. reflexivity.
Qed.

(** X3.  After [Delete(k)], [Get(k)] finds nothing at any instant, even
    when removing the mirror file failed, and the other keys read as
    before. *)
Theorem Get_after_Delete (now : Time) (key : string) (w : World) :
  (Get now key (Delete key w).2).1 = (Nil, false)
  /\ (forall k, k <> key -> (Get now k (Delete key w).2).1 = (Get now k w).1).
Proof.
  split.
  - rewrite Get_eq, Delete_store. cbn [fst data]. rewrite lookup_delete_eq. reflexivity.
  - intros k Hk. rewrite !Get_eq, Delete_store. cbn [fst data].
    rewrite lookup_delete_ne by congruence. reflexivity.
Qed.

(** ** The mirror files *)

(** X4.  With a cache folder, a [Set] that returns no error has written
    the encoding of the entry it stored to the mirror file of the key;
    whatever it returns, the other files are as they were. *)
Theorem Set_writes_through
    (arch : Arch) (now : Time) (key : string) (value : any) (ttl : Z) (w : World) :
  cacheFolder (store w) <> ""%string ->
  ((Set_ arch now key value ttl w).1 = None ->
     exists content,
       json.Marshal (newNode arch now key value ttl) = inr content
       /\ files (disk (Set_ arch now key value ttl w).2)
            !! mirror (cacheFolder (store w)) key = Some content)
  /\ (forall p, p <> mirror (cacheFolder (store w)) key ->
        files (disk (Set_ arch now key value ttl w).2) !! p = files (disk w) !! p).
Proof.
  intros Hf. rewrite Set_eq, saveInCache_eq. cbn [store cacheFolder disk Key newNode].
  rewrite (eqb_empty_false _ Hf).
  destruct (json.Marshal _) as [e|content] eqn:Hm.
  - split; [discriminate | reflexivity].
  - unfold os_WriteFile. destruct (decide _) as [Hd|Hd]; cbn [fst snd disk files].
    + split; [discriminate | reflexivity].
    + split.
      * intros _. exists content. split; [reflexivity | apply lookup_insert_eq].
      * intros p Hp. apply lookup_insert_ne. congruence.
Qed.

Lemma Set_writes_through_witness :
  files (disk (Set_ Arch64 4000000000 "k" (Str "v") 1000 (fresh "cache")).2)
    !! mirror "cache" "k"
  = Some (json.Text (json.Object
            [("key"%string, json.String_ "k");
             ("value"%string, json.String_ "v");
             ("deleteTimestamp"%string, json.Number (json.Integer 5000))])).
Proof.
  destruct (Set_writes_through Arch64 4000000000 "k" (Str "v") 1000 (fresh "cache"))
    as [H _]; [discriminate|].
  destruct H as (content & Hc & Hfile); [vm_compute; reflexivity|].
  change (cacheFolder (store (fresh "cache"))) with "cache"%string in Hfile.
  rewrite Hfile. f_equal.
  assert (Hc' : json.Marshal (newNode Arch64 4000000000 "k" (Str "v") 1000)
                = inr (json.Text (json.Object
                         [("key"%string, json.String_ "k");
                          ("value"%string, json.String_ "v");
                          ("deleteTimestamp"%string, json.Number (json.Integer 5000))])))
    by (vm_compute; reflexivity).
  rewrite Hc' in Hc. injection Hc as <-. reflexivity.
Defined.

(** X5.  With a cache folder, after a [Delete] that returns no error the
    key has no mirror file; the only error it returns is the permission
    error of [os.Remove], and then the mirror file is still there although
    the key has left the map; the other files are never touched. *)
Theorem Delete_removes_mirror (key : string) (w : World) :
  cacheFolder (store w) <> ""%string ->
  ((Delete key w).1 = None ->
     files (disk (Delete key w).2) !! mirror (cacheFolder (store w)) key = None)
  /\ (forall e, (Delete key w).1 = Some e ->
        e = ErrPermission
        /\ disk (Delete key w).2 = disk w
        /\ is_Some (files (disk w) !! mirror (cacheFolder (store w)) key)
        /\ data (store (Delete key w).2) !! key = None)
  /\ (forall p, p <> mirror (cacheFolder (store w)) key ->
        files (disk (Delete key w).2) !! p = files (disk w) !! p).
Proof.
  intros Hf. rewrite Delete_eq, deleteInCache_eq. cbn [store cacheFolder disk data].
  rewrite (eqb_empty_false _ Hf). unfold os_Remove.
  destruct (files (disk w) !! _) as [c|] eqn:Hc; [destruct (decide _) as [Hd|Hd]|];
    cbn [fst snd disk files store data os_IsNotExist].
  - split; [discriminate|]. split; [|reflexivity].
    intros e [= <-]. repeat split; [eexists; reflexivity | apply lookup_delete_eq].
  - split; [intros _; apply lookup_delete_eq|]. split; [discriminate|].
    intros p Hp. apply lookup_delete_ne. congruence.
  - split; [intros _; exact Hc|]. split; [discriminate | reflexivity].
Qed.

Lemma Delete_removes_mirror_witness :
  files (disk (Delete "k" (mkWorld (mkStore ∅ "cache") saved_disk)).2)
    !! mirror "cache" "k" = None.
Proof.
  destruct (Delete_removes_mirror "k" (mkWorld (mkStore ∅ "cache") saved_disk))
    as (H & _); [discriminate|].
  apply H. vm_compute. reflexivity.
Defined.

(** ** The sweep *)

Lemma nodeIsExpired_mono now now' n :
  now <= now' -> nodeIsExpired now n = true -> nodeIsExpired now' n = true.
Proof.
  unfold nodeIsExpired. intros Hle H. apply UnixMilli_mono in Hle. lia.
Qed.

(** A pass removes nothing but expired entries, however it ends. *)
Lemma clean_range_only_expired now visit w k :
  data (store (final (clean_range now visit w))) !! k = data (store w) !! k
  \/ (data (store (final (clean_range now visit w))) !! k = None
      /\ exists n, data (store w) !! k = Some n /\ nodeIsExpired now n = true).
Proof.
  revert w. induction visit as [|key visit IH]; intros w; [left; reflexivity|].
  cbn [clean_range].
  destruct (data (store w) !! key) as [n|] eqn:Hkey; [|apply IH].
  destruct (nodeIsExpired now n) eqn:He; [|apply IH].
  unfold set_data, modify.
  match goal with |- context [deleteInCache key ?w1] =>
    pose proof (deleteInCache_store key w1) as Hs;
    destruct (deleteInCache key w1) as [[e|] w2] end; cbn [snd store data] in Hs.
  - cbn [final]. rewrite Hs. cbn [data].
    destruct (decide (k = key)) as [->|Hne].
    + right. rewrite lookup_delete_eq. split; [reflexivity|]. exists n. split; assumption.
    + left. apply lookup_delete_ne. congruence.
  - destruct (IH w2) as [H|[H1 (m & H2 & H3)]].
    + rewrite H, Hs. cbn [data].
      destruct (decide (k = key)) as [->|Hne].
      * right. rewrite lookup_delete_eq. split; [reflexivity|]. exists n. split; assumption.
      * left. apply lookup_delete_ne. congruence.
    + right. split; [exact H1|]. exists m. split; [|exact H3].
      rewrite Hs in H2. cbn [data] in H2. apply lookup_delete_Some in H2 as [_ H2]. exact H2.
Qed.

Lemma live_unchanged now (d d' : gmap string node) :
  (forall k, d' !! k = d !! k
             \/ (d' !! k = None /\ exists n, d !! k = Some n /\ nodeIsExpired now n = true)) ->
  live now d' = live now d.
Proof.
  intros H. unfold live. apply map_eq. intros k. apply option_eq. intros n.
  rewrite !map_lookup_filter_Some. cbn [snd].
  destruct (H k) as [->|[H1 (m & H2 & H3)]]; [reflexivity|].
  rewrite H1, H2. split; [intros [[=] _]|]. intros [[= ->] He]. congruence.
Qed.

(** X6.  A pass of the sweeper is invisible to the readers: at the
    instant of the pass and at every later one, [Get] of every key and
    [Length] answer on the swept store what they answer on the store as
    it was, even when the pass ended in a panic. *)
Theorem sweep_is_invisible
    (now now' : Time) (visit : list string) (w : World) (key : string) :
  now <= now' ->
  (Get now' key (final (clean_range now visit w))).1 = (Get now' key w).1
  /\ (Length now' (final (clean_range now visit w))).1 = (Length now' w).1.
Proof.
  intros Hle. split.
  - rewrite !Get_eq. cbn [fst].
    destruct (clean_range_only_expired now visit w key) as [->|[-> (n & -> & He)]];
      [reflexivity|].
    rewrite (nodeIsExpired_mono now now' n Hle He). reflexivity.
  - rewrite !Length_eq. cbn [fst]. f_equal. f_equal.
    apply live_unchanged. intros k.
    destruct (clean_range_only_expired now visit w k) as [H|[H (n & Hn & He)]];
      [left; exact H|].
    right. split; [exact H|]. exists n. split; [exact Hn|].
    apply (nodeIsExpired_mono now now' n Hle He).
Qed.

Lemma sweep_is_invisible_witness :
  (Length 1000000000 (final (clean_range 1000000000 ["a"; "b"]%string stale_world))).1
  = (Length 1000000000 stale_world).1.
Proof.
  apply (sweep_is_invisible 1000000000 1000000000 ["a"; "b"]%string stale_world "a").
  lia.
Defined.

Lemma deleteInCache_allowed_gone key w :
  mirror (cacheFolder (store w)) key ∉ denied (disk w) ->
  cacheFolder (store w) <> ""%string ->
  files (disk (deleteInCache key w).2) !! mirror (cacheFolder (store w)) key = None.
Proof.
  intros Hd Hf. rewrite deleteInCache_eq, (eqb_empty_false _ Hf). unfold os_Remove.
  destruct (files (disk w) !! _) as [c|] eqn:Hc; cbn [snd disk files].
  - rewrite decide_False by assumption. cbn [snd disk files]. apply lookup_delete_eq.
  - exact Hc.
Qed.

(** Files only disappear when a mirror is removed. *)
Lemma deleteInCache_files_shrink key w p :
  files (disk (deleteInCache key w).2) !! p = None
  \/ files (disk (deleteInCache key w).2) !! p = files (disk w) !! p.
Proof.
  rewrite deleteInCache_eq. destruct (String.eqb _ _); [right; reflexivity|].
  unfold os_Remove. destruct (files (disk w) !! _) as [c|] eqn:Hc; [|right; reflexivity].
  destruct (decide _); [right; reflexivity|]. cbn [snd disk files].
  destruct (decide (p = mirror (cacheFolder (store w)) key)) as [->|Hne].
  - left. apply lookup_delete_eq.
  - right. apply lookup_delete_ne. congruence.
Qed.

Lemma clean_range_complete now visit w :
  (forall k, mirror (cacheFolder (store w)) k ∉ denied (disk w)) ->
  exists w',
    clean_range now visit w = Returned tt w'
    /\ cacheFolder (store w') = cacheFolder (store w)
    /\ denied (disk w') = denied (disk w)
    /\ (forall k, data (store w') !! k
                  = if decide (k ∈ visit)
                    then live now (data (store w)) !! k
                    else data (store w) !! k)
    /\ (forall p, files (disk w') !! p = None \/ files (disk w') !! p = files (disk w) !! p)
    /\ (cacheFolder (store w) <> ""%string ->
        forall k n, k ∈ visit -> data (store w) !! k = Some n ->
                    nodeIsExpired now n = true ->
                    files (disk w') !! mirror (cacheFolder (store w)) k = None).
Proof.
  revert w. induction visit as [|key visit IH]; intros w Hden.
  - exists w. repeat split; try reflexivity.
    + intros p. right. reflexivity.
    + intros _ k n Hk. apply elem_of_nil in Hk. destruct Hk.
  - assert (Hskip : (forall n, data (store w) !! key = Some n -> nodeIsExpired now n = false) ->
              exists w', clean_range now (key :: visit) w = Returned tt w'
                /\ cacheFolder (store w') = cacheFolder (store w)
                /\ denied (disk w') = denied (disk w)
                /\ (forall k, data (store w') !! k
                      = if decide (k ∈ key :: visit)
                        then live now (data (store w)) !! k
                        else data (store w) !! k)
                /\ (forall p, files (disk w') !! p = None
                              \/ files (disk w') !! p = files (disk w) !! p)
                /\ (cacheFolder (store w) <> ""%string ->
                    forall k n, k ∈ key :: visit -> data (store w) !! k = Some n ->
                      nodeIsExpired now n = true ->
                      files (disk w') !! mirror (cacheFolder (store w)) k = None)).
    { intros Hlive. rewrite clean_range_skip by exact Hlive.
      destruct (IH w Hden) as (w' & H1 & H2 & H3 & H4 & H5 & H6).
      exists w'. split; [exact H1|]. split; [exact H2|]. split; [exact H3|].
      split; [|split; [exact H5|]].
      - intros k. rewrite H4. destruct (decide (k ∈ visit)) as [Hin|Hnin].
        + rewrite decide_True by (right; exact Hin). reflexivity.
        + destruct (decide (k = key)) as [->|Hne].
          * rewrite decide_True by left. unfold live.
            destruct (data (store w) !! key) as [n|] eqn:Hk.
            -- symmetry. apply map_lookup_filter_Some. split; [exact Hk|].
               apply (Hlive n eq_refl).
            -- symmetry. apply map_lookup_filter_None. left. exact Hk.
          * rewrite decide_False; [reflexivity|].
            intros Hin. apply elem_of_cons in Hin as [?|?]; [congruence|contradiction].
      - intros Hf k n Hin Hk He. apply elem_of_cons in Hin as [->|Hin].
        + rewrite (Hlive n Hk) in He. discriminate.
        + apply (H6 Hf k n Hin Hk He). }
    destruct (data (store w) !! key) as [n|] eqn:Hkey;
      [destruct (nodeIsExpired now n) eqn:He|].
    + clear Hskip. rewrite (clean_range_evict _ _ _ _ _ Hkey He).
      set (w1 := mkWorld (mkStore (delete key (data (store w))) (cacheFolder (store w)))
                         (disk w)).
      destruct (deleteInCache_allowed key w1 (Hden key)) as (fs & Hdel & Hdenied & Hfiles).
      pose proof (deleteInCache_allowed_gone key w1 (Hden key)) as Hgone.
      rewrite Hdel in Hgone |- *. cbn [snd disk store cacheFolder w1] in Hgone.
      destruct (IH (mkWorld (store w1) fs)) as (w' & H1 & H2 & H3 & H4 & H5 & H6).
      { intros k. cbn [store disk cacheFolder w1]. rewrite Hdenied. apply Hden. }
      cbn [store disk cacheFolder data w1] in H2, H3, H4, H5, H6.
      exists w'. split; [exact H1|]. split; [exact H2|].
      split; [rewrite H3; exact Hdenied|]. split; [|split].
      * intros k. rewrite H4. unfold live.
        destruct (decide (k = key)) as [->|Hne].
        -- rewrite (decide_True (P := key ∈ key :: visit)) by left.
           replace (filter _ (data (store w)) !! key) with (@None node).
           2:{ symmetry. apply map_lookup_filter_None. right. intros m Hm. cbn [snd].
               rewrite Hkey in Hm. injection Hm as <-. congruence. }
           destruct (decide (key ∈ visit)).
           ++ apply map_lookup_filter_None. left. apply lookup_delete_eq.
           ++ apply lookup_delete_eq.
        -- destruct (decide (k ∈ visit)) as [Hin|Hnin].
           ++ rewrite decide_True by (right; exact Hin).
              rewrite map_filter_delete, lookup_delete_ne by congruence. reflexivity.
           ++ rewrite decide_False.
              ** apply lookup_delete_ne. congruence.
              ** intros Hin. apply elem_of_cons in Hin as [?|?]; [congruence|contradiction].
      * intros p. destruct (H5 p) as [Hp|Hp]; [left; exact Hp|].
        rewrite Hp. destruct (decide (p = mirror (cacheFolder (store w)) key)) as [->|Hne].
        -- destruct (decide (cacheFolder (store w) = ""%string)) as [Hf|Hf].
           ++ right. f_equal. f_equal.
              rewrite deleteInCache_eq in Hdel. cbn [store cacheFolder w1] in Hdel.
              rewrite Hf in Hdel. cbn [String.eqb] in Hdel.
              unfold w1 in Hdel. cbn [store] in Hdel. congruence.
           ++ left. apply Hgone. exact Hf.
        -- right. apply Hfiles. exact Hne.
      * intros Hf k m Hin Hk Hem. apply elem_of_cons in Hin as [->|Hin].
        -- destruct (H5 (mirror (cacheFolder (store w)) key)) as [Hp|Hp]; [exact Hp|].
           rewrite Hp. apply Hgone. exact Hf.
        -- destruct (decide (k = key)) as [->|Hne].
           ++ destruct (H5 (mirror (cacheFolder (store w)) key)) as [Hp|Hp]; [exact Hp|].
              rewrite Hp. apply Hgone. exact Hf.
           ++ apply (H6 Hf k m Hin); [|exact Hem].
              rewrite lookup_delete_ne by congruence. exact Hk.
    + apply Hskip. intros m [= <-]. exact He.
    + apply Hskip. intros m [=].
Qed.

(** X7.  When no mirror path is denied, a pass that visits every key of
    the map returns, and it leaves in the map exactly the entries that
    are not expired at its instant; with a cache folder, no evicted key
    has a mirror file any more, and no file has been created or
    changed. *)
Theorem sweep_evicts_the_expired (now : Time) (visit : list string) (w : World) :
  (forall k, mirror (cacheFolder (store w)) k ∉ denied (disk w)) ->
  (forall k, is_Some (data (store w) !! k) -> k ∈ visit) ->
  exists w',
    clean_range now visit w = Returned tt w'
    /\ data (store w') = live now (data (store w))
    /\ (forall p, files (disk w') !! p = None \/ files (disk w') !! p = files (disk w) !! p)
    /\ (cacheFolder (store w) <> ""%string ->
        forall k n, data (store w) !! k = Some n -> nodeIsExpired now n = true ->
                    files (disk w') !! mirror (cacheFolder (store w)) k = None).
Proof.
  intros Hden Hall.
  destruct (clean_range_complete now visit w Hden) as (w' & H1 & H2 & H3 & H4 & H5 & H6).
  exists w'. split; [exact H1|]. split; [|split; [exact H5|]].
  - apply map_eq. intros k. rewrite H4.
    destruct (decide (k ∈ visit)) as [Hin|Hnin]; [reflexivity|].
    destruct (data (store w) !! k) as [n|] eqn:Hk.
    + exfalso. apply Hnin, Hall. rewrite Hk. eexists. reflexivity.
    + symmetry. apply map_lookup_filter_None. left. exact Hk.
  - intros Hf k n Hk He. apply (H6 Hf k n); [|exact Hk|exact He].
    apply Hall. rewrite Hk. eexists. reflexivity.
Qed.

Lemma sweep_evicts_the_expired_witness :
  exists w',
    clean_range 1000000000 ["a"; "b"]%string two_entries = Returned tt w'
    /\ data (store w') = live 1000000000 (data (store two_entries)).
Proof.
  destruct (sweep_evicts_the_expired 1000000000 ["a"; "b"]%string two_entries)
    as (w' & H1 & H2 & _).
  - intros k. cbn [two_entries disk denied]. apply not_elem_of_empty.
  - intros k [n Hk]. cbn [two_entries store data] in Hk.
    apply lookup_insert_Some in Hk as [[<- _]|[_ Hk]]; [right; left|].
    apply lookup_insert_Some in Hk as [[<- _]|[_ Hk]]; [left|].
    rewrite lookup_empty in Hk. discriminate.
  - exists w'. split; [exact H1 | exact H2].
Defined.

(** ** The names of the mirror files *)

Lemma length_append_string (a b : string) :
  String.length (a +:+ b) = (String.length a + String.length b)%nat.
Proof. induction a as [|c a IH]; simpl; [reflexivity | f_equal; exact IH]. Qed.

Lemma substring_all (s : string) : substring 0 (String.length s) s = s.
Proof. induction s as [|c s IH]; simpl; [reflexivity | f_equal; exact IH]. Qed.

Lemma substring_append (a s : string) :
  substring (String.length a) (String.length s) (a +:+ s) = s.
Proof. induction a as [|c a IH]; simpl; [apply substring_all | exact IH]. Qed.

Lemma HasSuffix_append (a s : string) : HasSuffix (a +:+ s) s = true.
Proof.
  unfold HasSuffix. rewrite length_append_string.
  replace (String.length a + String.length s - String.length s)%nat
    with (String.length a) by lia.
  rewrite substring_append, String.eqb_refl, andb_true_r.
  apply Nat.leb_le. lia.
Qed.

Lemma strip_prefix_append (p s : string) : strip_prefix p (p +:+ s) = Some s.
Proof.
  induction p as [|c p IH]; simpl; [destruct s; reflexivity|].
  rewrite Ascii.eqb_refl. exact IH.
Qed.

Lemma append_assoc_string (a b c : string) : (a +:+ b) +:+ c = a +:+ (b +:+ c).
Proof.
  induction a as [|x a IH]; [reflexivity|].
  change (String x ((a +:+ b) +:+ c) = String x (a +:+ (b +:+ c))). rewrite IH. reflexivity.
Qed.

Lemma is_base_name_append (a b : string) :
  is_base_name (a +:+ b) = is_base_name a && is_base_name b.
Proof.
  induction a as [|c a IH]; simpl; [reflexivity|]. rewrite IH, andb_assoc. reflexivity.
Qed.

Lemma digit_not_separator (d : Z) :
  0 <= d < 16 -> Ascii.eqb (hex.digit d) "/" = false.
Proof.
  intros H.
  assert (Hd : d = 0 \/ d = 1 \/ d = 2 \/ d = 3 \/ d = 4 \/ d = 5 \/ d = 6 \/ d = 7
               \/ d = 8 \/ d = 9 \/ d = 10 \/ d = 11 \/ d = 12 \/ d = 13 \/ d = 14
               \/ d = 15) by lia.
  repeat (destruct Hd as [->|Hd]; [reflexivity|]). subst d. reflexivity.
Qed.

Lemma EncodeToString_base_name (bs : list Z) :
  Forall (fun b => 0 <= b < 256) bs -> is_base_name (hex.EncodeToString bs) = true.
Proof.
  induction 1 as [|b bs Hb _ IH]; cbn [hex.EncodeToString is_base_name]; [reflexivity|].
  rewrite !digit_not_separator, IH; [reflexivity| |].
  - apply Z.mod_pos_bound. lia.
  - split; [apply Z.div_pos; lia | apply Z.div_lt_upper_bound; lia].
Qed.

Lemma EncodeToString_length (bs : list Z) :
  String.length (hex.EncodeToString bs) = (2 * length bs)%nat.
Proof. induction bs as [|b bs IH]; simpl; [reflexivity | rewrite IH; lia]. Qed.

Lemma be_bytes_range (n : nat) (x : Z) : Forall (fun b => 0 <= b < 256) (sha256.be_bytes n x).
Proof.
  induction n as [|n IH]; cbn [sha256.be_bytes]; constructor; [|exact IH].
  apply Z.mod_pos_bound. lia.
Qed.

Lemma be_bytes_length (n : nat) (x : Z) : length (sha256.be_bytes n x) = n.
Proof. induction n as [|n IH]; cbn; [reflexivity | rewrite IH; reflexivity]. Qed.

Lemma round_length st kw : length st = 8%nat -> length (sha256.round st kw) = 8%nat.
Proof.
  intros H. do 9 (destruct st as [|? st]; try discriminate). reflexivity.
Qed.

Lemma rounds_length l st :
  length st = 8%nat -> length (fold_left sha256.round l st) = 8%nat.
Proof.
  revert st. induction l as [|kw l IH]; intros st H; cbn [fold_left]; [exact H|].
  apply IH, round_length, H.
Qed.

Lemma compress_length h block :
  length h = 8%nat -> length (sha256.compress h block) = 8%nat.
Proof.
  intros H. unfold sha256.compress.
  rewrite length_map, length_combine, rounds_length by exact H. rewrite H. reflexivity.
Qed.

Lemma Sum256_shape (s : string) :
  length (sha256.Sum256 s) = 32%nat
  /\ Forall (fun b => 0 <= b < 256) (sha256.Sum256 s).
Proof.
  unfold sha256.Sum256.
  set (blocks := sha256.chunks _ _ _). clearbody blocks.
  assert (Hh : length (fold_left sha256.compress blocks sha256.H0) = 8%nat).
  { assert (H0 : length sha256.H0 = 8%nat) by reflexivity.
    revert H0. generalize sha256.H0. induction blocks as [|b blocks IH]; intros h Hh';
      cbn [fold_left]; [exact Hh'|]. apply IH, compress_length, Hh'. }
  set (h := fold_left _ _ _) in *. clearbody h.
  do 9 (destruct h as [|? h]; try discriminate). split.
  - cbn [flat_map]. rewrite !length_app, !be_bytes_length. reflexivity.
  - cbn [flat_map]. repeat (apply Forall_app; split); try apply be_bytes_range.
    constructor.
Qed.

Lemma mirror_files_shape (folder key : string) :
  mirror folder key = filepath_Join folder (mirror_name key)
  /\ HasSuffix (mirror_name key) ".store.json" = true
  /\ is_base_name (mirror_name key) = true
  /\ String.length (mirror_name key) = 75%nat
  /\ strip_prefix (folder +:+ "/") (mirror folder key) = Some (mirror_name key).
Proof.
  destruct (Sum256_shape key) as [Hlen Hrange].
  split; [reflexivity|]. split; [apply HasSuffix_append|]. split; [|split].
  - unfold mirror_name. rewrite is_base_name_append, EncodeToString_base_name by exact Hrange.
    reflexivity.
  - unfold mirror_name. rewrite length_append_string, EncodeToString_length, Hlen.
    reflexivity.
  - unfold mirror, filepath_Join. fold (mirror_name key).
    rewrite <- append_assoc_string. apply strip_prefix_append.
Qed.

(** X8.  The mirror file of every key is a file directly inside the
    cache folder whose name is 64 hexadecimal digits followed by
    [.store.json]: a single path element that the suffix test of [init]
    accepts, and that [os.ReadDir] lists under that name. *)
Theorem mirror_files_are_recognised (folder key : string) :
  mirror folder key = filepath_Join folder (mirror_name key)
  /\ HasSuffix (mirror_name key) ".store.json" = true
  /\ is_base_name (mirror_name key) = true
  /\ String.length (mirror_name key) = 75%nat
  /\ strip_prefix (folder +:+ "/") (mirror folder key) = Some (mirror_name key).
Proof. apply mirror_files_shape. Qed.

(** ** Replay at startup *)

Lemma to_int_small arch (z : Z) : - 2 ^ 31 <= z < 2 ^ 31 -> to_int arch z = z.
Proof.
  intros H. destruct arch; unfold to_int, intSize.
  - unfold wrap. change (32 - 1) with 31. change (2 ^ 32) with (2 * 2 ^ 31).
    generalize dependent (2 ^ 31). intros p H. rewrite Z.mod_small by lia. lia.
  - apply wrap_small. change (2 ^ 31) with 2147483648 in H.
    change (2 ^ 63) with 9223372036854775808. lia.
Qed.

Lemma init_file_replay arch now name w content n :
  HasSuffix name ".store.json" = true ->
  os_ReadFile (filepath_Join (cacheFolder (store w)) name) (disk w) = inr content ->
  json.Unmarshal content = inr n ->
  - 2 ^ 63 <= DeleteTimestamp n - UnixMilli now < 2 ^ 31 ->
  DeleteTimestamp n - UnixMilli now <> 0 ->
  init_file arch now name w
  = (None, (Set_ arch now (Key n) (Value n)
              (if DeleteTimestamp n - UnixMilli now <? 0
               then 1 else DeleteTimestamp n - UnixMilli now) w).2)
  /\ newNode arch now (Key n) (Value n)
       (if DeleteTimestamp n - UnixMilli now <? 0
        then 1 else DeleteTimestamp n - UnixMilli now)
     = mkNode (Key n) (Value n)
         (if DeleteTimestamp n - UnixMilli now <? 0
          then UnixMilli now + 1 else DeleteTimestamp n).
Proof.
  intros Hs Hr Hu Hrange Hnz.
  assert (H31 : 2 ^ 31 = 2147483648) by reflexivity.
  assert (H63 : 2 ^ 63 = 9223372036854775808) by reflexivity.
  split.
  - rewrite init_file_eq, Hs, Hr, Hu. cbn [negb]. cbv zeta.
    rewrite wrap_small by lia.
    destruct (DeleteTimestamp n - UnixMilli now <? 0) eqn:Hneg.
    + rewrite to_int_small by lia. reflexivity.
    + apply Z.ltb_ge in Hneg. rewrite to_int_small by lia. reflexivity.
  - destruct (DeleteTimestamp n - UnixMilli now <? 0) eqn:Hneg.
    + rewrite newNode_deadline by lia. reflexivity.
    + apply Z.ltb_ge in Hneg. rewrite newNode_deadline by lia. f_equal. lia.
Qed.

(** X9.  A mirror file that decodes to an entry whose deadline lies in
    the future (by less than [2 ^ 31] ms) is put back under its key with
    its value and the same deadline; one whose deadline has passed is put
    back with the deadline one millisecond after the start, so that [Get]
    finds it again during the millisecond of the start. *)
Theorem init_restores_entry
    (arch : Arch) (now : Time) (name : string) (w : World)
    (content : json.bytes) (n : node) :
  HasSuffix name ".store.json" = true ->
  os_ReadFile (filepath_Join (cacheFolder (store w)) name) (disk w) = inr content ->
  json.Unmarshal content = inr n ->
  - 2 ^ 63 <= DeleteTimestamp n - UnixMilli now < 2 ^ 31 ->
  DeleteTimestamp n - UnixMilli now <> 0 ->
  (init_file arch now name w).1 = None
  /\ data (store (init_file arch now name w).2) !! Key n
     = Some (mkNode (Key n) (Value n)
               (if DeleteTimestamp n - UnixMilli now <? 0
                then UnixMilli now + 1 else DeleteTimestamp n))
  /\ (Get now (Key n) (init_file arch now name w).2).1 = (Value n, true).
Proof.
  intros Hs Hr Hu Hrange Hnz.
  destruct (init_file_replay arch now name w content n Hs Hr Hu Hrange Hnz) as [-> Hnode].
  cbn [fst snd]. split; [reflexivity|].
  assert (Hk : data (store (Set_ arch now (Key n) (Value n)
                 (if DeleteTimestamp n - UnixMilli now <? 0
                  then 1 else DeleteTimestamp n - UnixMilli now) w).2) !! Key n
               = Some (mkNode (Key n) (Value n)
                         (if DeleteTimestamp n - UnixMilli now <? 0
                          then UnixMilli now + 1 else DeleteTimestamp n))).
  { rewrite Set_store. cbn [data]. rewrite lookup_insert_eq, Hnode. reflexivity. }
  split; [exact Hk|].
  rewrite Get_eq, Hk. cbn [fst]. unfold nodeIsExpired. cbn [DeleteTimestamp Value].
  destruct (DeleteTimestamp n - UnixMilli now <? 0) eqn:Hneg.
  - replace (UnixMilli now >? UnixMilli now + 1) with false; [reflexivity|].
    symmetry. rewrite Z.gtb_ltb. apply Z.ltb_ge. lia.
  - apply Z.ltb_ge in Hneg.
    replace (UnixMilli now >? DeleteTimestamp n) with false; [reflexivity|].
    symmetry. rewrite Z.gtb_ltb. apply Z.ltb_ge. lia.
Qed.

Lemma init_restores_entry_witness :
  data (store (init_file Arch64 9000000000 saved_name
                 (mkWorld (mkStore ∅ "cache") saved_disk)).2) !! "k"%string
  = Some (mkNode "k" (Str "v") 9001).
Proof.
  destruct (init_restores_entry Arch64 9000000000 saved_name
              (mkWorld (mkStore ∅ "cache") saved_disk)
              (json.Text (json.Object
                 [("key"%string, json.String_ "k");
                  ("value"%string, json.String_ "v");
                  ("deleteTimestamp"%string, json.Number (json.Integer 5000))]))
              (mkNode "k" (Str "v") 5000)) as (_ & H & _).
  - vm_compute. reflexivity.
  - vm_compute. reflexivity.
  - vm_compute. reflexivity.
  - vm_compute. split; [discriminate | reflexivity].
  - vm_compute. discriminate.
  - exact H.
Defined.

(** ** A store that is restarted *)

Lemma plain_marshals (v : any) :
  is_plain v = true -> well_typed v = true /\ exists j, json.marshal_any v = inr j.
Proof.
  induction v as [|b|n|f|s|l IH|m IH|m IH|] using any_induction;
    cbn [is_plain well_typed json.marshal_any]; intros Hp; try discriminate.
  - split; [reflexivity | eexists; reflexivity].
  - split; [reflexivity | eexists; reflexivity].
  - split; [reflexivity | eexists; reflexivity].
  - assert (H : forallb well_typed l = true /\ exists js, json.mapM json.marshal_any l = inr js).
    { induction IH as [|x l Hx _ IHl]; [split; [reflexivity | exists []; reflexivity]|].
      cbn [forallb] in Hp. apply andb_prop in Hp as [Hp1 Hp2].
      destruct (Hx Hp1) as (Hw & j & Hj). destruct (IHl Hp2) as (Hws & js & Hjs).
      split; [cbn [forallb]; rewrite Hw, Hws; reflexivity|].
      exists (j :: js). cbn [json.mapM]. rewrite Hj.
      change ((fix go (l0 : list any) : error + list json.value :=
                 match l0 with
                 | [] => inr []
                 | x0 :: r =>
                     match json.marshal_any x0 with
                     | inl e => inl e
                     | inr y =>
                         match go r with
                         | inl e => inl e
                         | inr ys => inr (y :: ys)
                         end
                     end
                 end) l) with (json.mapM json.marshal_any l).
      rewrite Hjs. reflexivity. }
    destruct H as (Hw & js & Hjs). split; [exact Hw|]. rewrite Hjs. eexists. reflexivity.
Qed.

Lemma Unmarshal_fields key j ts g :
  json.unmarshal_any j = inr g ->
  in_int64 ts = true ->
  json.Unmarshal
    (json.Text (json.Object [("key"%string, json.String_ key);
                             ("value"%string, j);
                             ("deleteTimestamp"%string, json.Number (json.Integer ts))]))
  = inr (mkNode key g ts).
Proof.
  intros Hg Hts. cbn [json.Unmarshal json.set_fields].
  change (json.set_field (mkNode "" Nil 0) "key" (json.String_ key))
    with (@inr error node (mkNode key Nil 0)).
  cbv beta iota.
  replace (json.set_field (mkNode key Nil 0) "value" j)
    with (@inr error node (mkNode key g 0)).
  2:{ unfold json.set_field.
      change (String.eqb (json.foldName "value") "KEY") with false.
      change (String.eqb (json.foldName "value") "VALUE") with true.
      cbv iota. rewrite Hg. reflexivity. }
  cbv beta iota. unfold json.set_field.
  change (String.eqb (json.foldName "deleteTimestamp") "KEY") with false.
  change (String.eqb (json.foldName "deleteTimestamp") "VALUE") with false.
  change (String.eqb (json.foldName "deleteTimestamp") "DELETETIMESTAMP") with true.
  cbv iota. unfold json.ParseInt. rewrite Hts. reflexivity.
Qed.

Lemma Unmarshal_Marshal_plain (x : node) :
  is_plain (Value x) = true ->
  json.toValidUTF8 (Key x) = Key x ->
  in_int64 (DeleteTimestamp x) = true ->
  exists content, json.Marshal x = inr content /\ json.Unmarshal content = inr x.
Proof.
  intros Hp Hk Hts. destruct (plain_marshals _ Hp) as (Hw & j & Hj).
  destruct (decodes_marshal _ Hw j Hj) as (g & Hg & _ & Hplain).
  unfold json.Marshal. rewrite Hj, Hk. eexists. split; [reflexivity|].
  rewrite (Unmarshal_fields _ _ _ _ Hg Hts), (Hplain Hp). destruct x; reflexivity.
Qed.

Lemma os_ReadDir_single folder key content :
  os_ReadDir folder (mkFS {[ mirror folder key := content ]} ∅) = inr [mirror_name key].
Proof.
  unfold os_ReadDir. cbn [denied files].
  rewrite decide_False by apply not_elem_of_empty.
  rewrite map_to_list_singleton. cbn [omap list_omap fst].
  destruct (mirror_files_shape folder key) as (_ & _ & Hb & Hl & Hstrip).
  rewrite Hstrip, Hb. 
  replace (String.eqb (mirror_name key) "") with false; [reflexivity|].
  symmetry. apply String.eqb_neq. intros Heq. rewrite Heq in Hl. discriminate.
Qed.

Lemma Set_success arch now key value ttl w content :
  cacheFolder (store w) <> ""%string ->
  json.Marshal (newNode arch now key value ttl) = inr content ->
  mirror (cacheFolder (store w)) key ∉ denied (disk w) ->
  Set_ arch now key value ttl w
  = (None,
     mkWorld (mkStore (<[key := newNode arch now key value ttl]> (data (store w)))
                      (cacheFolder (store w)))
             (mkFS (<[mirror (cacheFolder (store w)) key := content]> (files (disk w)))
                   (denied (disk w)))).
Proof.
  intros Hf Hm Hd. rewrite Set_eq, saveInCache_eq. cbn [store cacheFolder disk Key newNode].
  rewrite (eqb_empty_false _ Hf), Hm. unfold os_WriteFile.
  rewrite decide_False by exact Hd. reflexivity.
Qed.

(** X10.  A store with a cache folder that has set one entry (a valid
    UTF-8 key, a value built from [nil], booleans, valid strings and
    slices, a positive TTL) and is started again on the files it left,
    before the deadline and less than [2 ^ 31] ms ahead of it, holds
    exactly that entry, under its key, with its value and its deadline;
    [Get] returns the value, and the files are as they were. *)
Theorem restart_recovers_entry
    (arch : Arch) (folder key : string) (value : any) (ttl : Z) (now now' : Time) :
  folder <> ""%string ->
  is_plain value = true ->
  json.toValidUTF8 key = key ->
  0 < ttl <= 9223372036854 ->
  in_int64 (UnixMilli now + ttl) = true ->
  0 < UnixMilli now + ttl - UnixMilli now' < 2 ^ 31 ->
  NewKeyValueStore arch now' folder (disk (Set_ arch now key value ttl (fresh folder)).2)
  = Returned tt
      (mkWorld (mkStore {[ key := mkNode key value (UnixMilli now + ttl) ]} folder)
               (disk (Set_ arch now key value ttl (fresh folder)).2))
  /\ (Get now' key
        (final (NewKeyValueStore arch now' folder
                  (disk (Set_ arch now key value ttl (fresh folder)).2)))).1
     = (value, true).
Proof.
  intros Hf Hp Hk Httl Hts Hrem.
  assert (H31 : 2 ^ 31 = 2147483648) by reflexivity.
  assert (H63 : 2 ^ 63 = 9223372036854775808) by reflexivity.
  set (n := mkNode key value (UnixMilli now + ttl)).
  assert (Hn : newNode arch now key value ttl = n) by (apply newNode_deadline; lia).
  destruct (Unmarshal_Marshal_plain n Hp Hk Hts) as (content & Hm & Hu).
  assert (Hsaved : disk (Set_ arch now key value ttl (fresh folder)).2
                   = mkFS {[ mirror folder key := content ]} ∅).
  { rewrite (Set_success arch now key value ttl (fresh folder) content).
    - cbn [snd disk fresh store cacheFolder files denied]. rewrite insert_empty. reflexivity.
    - exact Hf.
    - rewrite Hn. exact Hm.
    - apply not_elem_of_empty. }
  rewrite Hsaved.
  assert (Hnew : NewKeyValueStore arch now' folder (mkFS {[ mirror folder key := content ]} ∅)
                 = Returned tt (mkWorld (mkStore {[ key := n ]} folder)
                                        (mkFS {[ mirror folder key := content ]} ∅))).
  { unfold NewKeyValueStore, init. unfold bind at 1, gets at 1. cbn [store cacheFolder].
    rewrite (eqb_empty_false _ Hf).
    unfold bind at 1, os at 1, os_MkdirAll. cbn [disk denied].
    rewrite decide_False by apply not_elem_of_empty.
    unfold bind at 1, os_read, gets. cbn [disk store]. rewrite os_ReadDir_single.
    cbn [init_files]. unfold bind at 1.
    destruct (init_file_replay arch now' (mirror_name key)
                (mkWorld (mkStore ∅ folder) (mkFS {[ mirror folder key := content ]} ∅))
                content n) as [Hinit Hnode].
    - apply (mirror_files_shape folder key).
    - unfold os_ReadFile. cbn [store cacheFolder disk files denied].
      change (filepath_Join folder (mirror_name key)) with (mirror folder key).
      rewrite lookup_singleton_eq, decide_False by apply not_elem_of_empty. reflexivity.
    - exact Hu.
    - cbn [n DeleteTimestamp]. lia.
    - cbn [n DeleteTimestamp]. lia.
    - rewrite Hinit. cbn [n Key Value DeleteTimestamp] in Hnode |- *.
      replace (UnixMilli now + ttl - UnixMilli now' <? 0) with false in Hnode |- *
        by (symmetry; apply Z.ltb_ge; lia).
      rewrite (Set_success arch now' key value _
                 (mkWorld (mkStore ∅ folder) (mkFS {[ mirror folder key := content ]} ∅))
                 content).
      + cbn [snd store data cacheFolder disk files denied ret].
        rewrite Hnode, insert_empty, insert_singleton_eq. reflexivity.
      + exact Hf.
      + rewrite Hnode. exact Hm.
      + apply not_elem_of_empty. }
  rewrite Hnew. split; [reflexivity|].
  cbn [final]. rewrite Get_eq. cbn [fst store data]. rewrite lookup_singleton_eq.
  unfold nodeIsExpired. cbn [n DeleteTimestamp Value].
  replace (UnixMilli now' >? UnixMilli now + ttl) with false; [reflexivity|].
  symmetry. rewrite Z.gtb_ltb. apply Z.ltb_ge. lia.
Qed.

Lemma restart_recovers_entry_witness :
  (Get 4500000000 "k"
     (final (NewKeyValueStore Arch64 4500000000 "cache"
               (disk (Set_ Arch64 4000000000 "k" (Str "v") 1000 (fresh "cache")).2)))).1
  = (Str "v", true).
Proof.
  apply (restart_recovers_entry Arch64 "cache" "k" (Str "v") 1000 4000000000 4500000000).
  - discriminate.
  - reflexivity.
  - reflexivity.
  - lia.
  - reflexivity.
  - vm_compute. split; reflexivity.
Defined.

(** ** Counting after a [Set] *)

(** X11.  [Set] of a key that is absent, or present but expired, with an
    entry that is not expired raises [Length] by one; [Set] of a key
    whose entry is not expired leaves [Length] as it was. *)
Theorem Length_after_Set
    (arch : Arch) (now now' : Time) (key : string) (value : any) (ttl : Z) (w : World) :
  nodeIsExpired now' (newNode arch now key value ttl) = false ->
  (Length now' (Set_ arch now key value ttl w).2).1
  = (Length now' w).1 + (if (Get now' key w).1.2 then 0 else 1).
Proof.
  intros Hlive. rewrite !Length_eq, Get_eq, Set_store. cbn [fst snd data]. unfold live.
  rewrite map_filter_insert_True by exact Hlive.
  destruct (data (store w) !! key) as [n|] eqn:Hk;
    [destruct (nodeIsExpired now' n) eqn:He|]; cbn [snd].
  - rewrite map_size_insert_None; [lia|].
    apply map_lookup_filter_None. right. intros m Hm. cbn [snd]. congruence.
  - rewrite map_size_insert_Some; [lia|].
    exists n. apply map_lookup_filter_Some. split; assumption.
  - rewrite map_size_insert_None; [lia|].
    apply map_lookup_filter_None. left. exact Hk.
Qed.

Lemma Length_after_Set_witness :
  (Length 0 (Set_ Arch64 0 "key4" (Str "value4") 1 (fresh "")).2).1 = 1.
Proof.
  rewrite (Length_after_Set Arch64 0 0 "key4" (Str "value4") 1 (fresh ""));
    [reflexivity|]. vm_compute. reflexivity.
Defined.

(** ** The in-memory store *)

Lemma InMemory_newNode_deadline now k v ttl :
  -9223372036854 <= ttl <= 9223372036854 ->
  InMemory.newNode now k v ttl = InMemory.mkNode k v (UnixMilli now + ttl).
Proof.
  intros H. unfold InMemory.newNode.
  rewrite Duration_mul_ms by assumption. rewrite UnixMilli_add_ms. reflexivity.
Qed.

(** X12.  In the in-memory store, after [Set(k, v, ttl)] with a TTL whose
    nanosecond count fits an [int64], [Get(k)] returns [(v, true)] up to
    and including the millisecond [ttl] after the call and [(nil, false)]
    afterwards.  There a TTL of 0 is no exception: the entry is found
    during the millisecond of the call only. *)
Theorem InMemory_Get_after_Set
    (now now' : Time) (k : string) (v : any) (ttl : Z) (d : InMemory.KeyValueStore) :
  -9223372036854 <= ttl <= 9223372036854 ->
  (InMemory.Get now' k (InMemory.Set_ now k v ttl d).2).1
  = if UnixMilli now' >? UnixMilli now + ttl then (Nil, false) else (v, true).
Proof.
  intros H. unfold InMemory.Get, InMemory.Set_, bind, gets, modify, index, ret.
  cbn [fst snd InMemory.data]. rewrite lookup_insert_eq, InMemory_newNode_deadline by exact H.
  cbn [negb orb]. unfold InMemory.nodeIsExpired. cbn [InMemory.deleteTimestamp InMemory.value].
  destruct (UnixMilli now' >? UnixMilli now + ttl); reflexivity.
Qed.

Lemma InMemory_Get_after_Set_witness :
  (InMemory.Get 0 "k" (InMemory.Set_ 0 "k" (Str "v") 0 InMemory.NewKeyValueStore).2).1
  = (Str "v", true)
  /\ (InMemory.Get 1000000 "k"
        (InMemory.Set_ 0 "k" (Str "v") 0 InMemory.NewKeyValueStore).2).1
     = (Nil, false).
Proof.
  split.
  - rewrite (InMemory_Get_after_Set 0 0 "k" (Str "v") 0 InMemory.NewKeyValueStore);
      [reflexivity | lia].
  - rewrite (InMemory_Get_after_Set 0 1000000 "k" (Str "v") 0 InMemory.NewKeyValueStore);
      [reflexivity | lia].
Defined.

Lemma InMemory_clean_range_lookup now visit (d : InMemory.KeyValueStore) k :
  InMemory.data (InMemory.clean_range now visit d) !! k
  = if decide (k ∈ visit)
    then filter (fun kn => InMemory.nodeIsExpired now kn.2 = false) (InMemory.data d) !! k
    else InMemory.data d !! k.
Proof.
  revert d. induction visit as [|key visit IH]; intros d.
  - cbn [InMemory.clean_range]. rewrite decide_False by apply not_elem_of_nil. reflexivity.
  - cbn [InMemory.clean_range].
    destruct (InMemory.data d !! key) as [n|] eqn:Hkey;
      [destruct (InMemory.nodeIsExpired now n) eqn:He|]; rewrite IH; clear IH.
    + cbn [InMemory.data]. destruct (decide (k = key)) as [->|Hne].
      * rewrite (decide_True (P := key ∈ key :: visit)) by left.
        replace (filter _ (InMemory.data d) !! key) with (@None InMemory.node).
        2:{ symmetry. apply map_lookup_filter_None. right. intros m Hm. cbn [snd].
            rewrite Hkey in Hm. injection Hm as <-. congruence. }
        destruct (decide (key ∈ visit)).
        -- apply map_lookup_filter_None. left. apply lookup_delete_eq.
        -- apply lookup_delete_eq.
      * destruct (decide (k ∈ visit)) as [Hin|Hnin].
        -- rewrite decide_True by (right; exact Hin).
           rewrite map_filter_delete, lookup_delete_ne by congruence. reflexivity.
        -- rewrite decide_False.
           ++ apply lookup_delete_ne. congruence.
           ++ intros Hin. apply elem_of_cons in Hin as [?|?]; [congruence|contradiction].
    + destruct (decide (k ∈ visit)) as [Hin|Hnin].
      * rewrite decide_True by (right; exact Hin). reflexivity.
      * destruct (decide (k = key)) as [->|Hne].
        -- rewrite decide_True by left. symmetry. rewrite Hkey.
           apply map_lookup_filter_Some. split; [exact Hkey | exact He].
        -- rewrite decide_False; [reflexivity|].
           intros Hin. apply elem_of_cons in Hin as [?|?]; [congruence|contradiction].
    + destruct (decide (k ∈ visit)) as [Hin|Hnin].
      * rewrite decide_True by (right; exact Hin). reflexivity.
      * destruct (decide (k = key)) as [->|Hne].
        -- rewrite decide_True by left. symmetry.
           rewrite Hkey. apply map_lookup_filter_None. left. exact Hkey.
        -- rewrite decide_False; [reflexivity|].
           intros Hin. apply elem_of_cons in Hin as [?|?]; [congruence|contradiction].
Qed.

Lemma InMemory_Length_fold now (d : gmap string InMemory.node) :
  map_fold (fun (_ : string) (n : InMemory.node) (counter : Z) =>
              if negb (InMemory.nodeIsExpired now n) then counter + 1 else counter) 0 d
  = Z.of_nat (size (filter (fun kn => InMemory.nodeIsExpired now kn.2 = false) d)).
Proof.
  apply (map_fold_weak_ind
           (fun (r : Z) (m : gmap string InMemory.node) =>
              r = Z.of_nat (size (filter (fun kn => InMemory.nodeIsExpired now kn.2 = false) m)))).
  - rewrite map_filter_empty, map_size_empty. reflexivity.
  - intros k n m r Hk ->.
    destruct (InMemory.nodeIsExpired now n) eqn:He; cbn [negb].
    + rewrite map_filter_insert_False by (cbn [snd]; congruence).
      rewrite delete_id by assumption. reflexivity.
    + rewrite map_filter_insert_True by (cbn [snd]; assumption).
      rewrite map_size_insert_None; [lia|].
      apply map_lookup_filter_None. left. assumption.
Qed.

(** X13.  In the in-memory store, a pass of the sweeper that visits every
    key leaves exactly the entries that are not expired at its instant,
    and [Length] returns their number, before the pass as after it. *)
Theorem InMemory_sweep_and_Length
    (now : Time) (visit : list string) (d : InMemory.KeyValueStore) :
  (forall k, is_Some (InMemory.data d !! k) -> k ∈ visit) ->
  InMemory.data (InMemory.clean_range now visit d)
  = filter (fun kn => InMemory.nodeIsExpired now kn.2 = false) (InMemory.data d)
  /\ (InMemory.Length now d).1
     = Z.of_nat (size (filter (fun kn => InMemory.nodeIsExpired now kn.2 = false)
                              (InMemory.data d)))
  /\ (InMemory.Length now (InMemory.clean_range now visit d)).1 = (InMemory.Length now d).1.
Proof.
  intros Hall.
  assert (H1 : InMemory.data (InMemory.clean_range now visit d)
               = filter (fun kn => InMemory.nodeIsExpired now kn.2 = false) (InMemory.data d)).
  { apply map_eq. intros k. rewrite InMemory_clean_range_lookup.
    destruct (decide (k ∈ visit)) as [Hin|Hnin]; [reflexivity|].
    destruct (InMemory.data d !! k) as [n|] eqn:Hk.
    - exfalso. apply Hnin, Hall. rewrite Hk. eexists. reflexivity.
    - symmetry. apply map_lookup_filter_None. left. exact Hk. }
  assert (H2 : forall d', (InMemory.Length now d').1
               = Z.of_nat (size (filter (fun kn => InMemory.nodeIsExpired now kn.2 = false)
                                        (InMemory.data d')))).
  { intros d'. unfold InMemory.Length, bind, gets, ret. cbn [fst].
    apply InMemory_Length_fold. }
  split; [exact H1|]. split; [apply H2|].
  rewrite !H2, H1. f_equal. f_equal.
  apply map_eq. intros k. apply option_eq. intros n.
  rewrite !map_lookup_filter_Some. tauto.
Qed.

Lemma InMemory_sweep_and_Length_witness :
  InMemory.data
    (InMemory.clean_range 1000000000 ["a"; "b"]%string
       (InMemory.mkStore (<["b"%string := InMemory.mkNode "b" (Str "2") 2000]>
                            (<["a"%string := InMemory.mkNode "a" (Str "1") 50]> ∅))))
  = {[ "b"%string := InMemory.mkNode "b" (Str "2") 2000 ]}.
Proof.
  destruct (InMemory_sweep_and_Length 1000000000 ["a"; "b"]%string
              (InMemory.mkStore (<["b"%string := InMemory.mkNode "b" (Str "2") 2000]>
                                   (<["a"%string := InMemory.mkNode "a" (Str "1") 50]> ∅))))
    as (H & _).
  - intros k [n Hk]. cbn [InMemory.data] in Hk.
    apply lookup_insert_Some in Hk as [[<- _]|[_ Hk]]; [right; left|].
    apply lookup_insert_Some in Hk as [[<- _]|[_ Hk]]; [left|].
    rewrite lookup_empty in Hk. discriminate.
  - rewrite H. vm_compute. reflexivity.
Defined.

(** ** The files the store touches *)

Lemma saveInCache_frame n w p :
  p <> mirror (cacheFolder (store w)) (Key n) ->
  files (disk (saveInCache n w).2) !! p = files (disk w) !! p.
Proof.
  intros Hp. rewrite saveInCache_eq. destruct (String.eqb _ _); [reflexivity|].
  destruct (json.Marshal n); [reflexivity|]. unfold os_WriteFile.
  destruct (decide _); [reflexivity|]. cbn [snd disk files].
  apply lookup_insert_ne. congruence.
Qed.

Lemma deleteInCache_frame key w p :
  p <> mirror (cacheFolder (store w)) key ->
  files (disk (deleteInCache key w).2) !! p = files (disk w) !! p.
Proof.
  intros Hp. rewrite deleteInCache_eq. destruct (String.eqb _ _); [reflexivity|].
  unfold os_Remove. destruct (files (disk w) !! _); [|reflexivity].
  destruct (decide _); [reflexivity|]. cbn [snd disk files].
  apply lookup_delete_ne. congruence.
Qed.

Lemma Set_frame arch now key value ttl w p :
  p <> mirror (cacheFolder (store w)) key ->
  files (disk (Set_ arch now key value ttl w).2) !! p = files (disk w) !! p.
Proof. intros Hp. rewrite Set_eq, saveInCache_frame; [reflexivity | exact Hp]. Qed.

Lemma Delete_frame key w p :
  p <> mirror (cacheFolder (store w)) key ->
  files (disk (Delete key w).2) !! p = files (disk w) !! p.
Proof. intros Hp. rewrite Delete_eq, deleteInCache_frame; [reflexivity | exact Hp]. Qed.

Lemma clean_range_frame now visit w p :
  (forall k, p <> mirror (cacheFolder (store w)) k) ->
  cacheFolder (store (final (clean_range now visit w))) = cacheFolder (store w)
  /\ files (disk (final (clean_range now visit w))) !! p = files (disk w) !! p.
Proof.
  revert w. induction visit as [|key visit IH]; intros w Hp; [split; reflexivity|].
  cbn [clean_range]. destruct (data (store w) !! key) as [n|]; [|apply IH, Hp].
  destruct (nodeIsExpired now n); [|apply IH, Hp].
  unfold set_data, modify.
  match goal with |- context [deleteInCache key ?w1] =>
    pose proof (deleteInCache_store key w1) as Hs;
    pose proof (deleteInCache_frame key w1 p (Hp key)) as Hfr;
    destruct (deleteInCache key w1) as [[e|] w2] end;
    cbn [snd store disk cacheFolder] in Hs, Hfr.
  - cbn [final]. rewrite Hs. split; [reflexivity | exact Hfr].
  - destruct (IH w2) as [H1 H2].
    + rewrite Hs. exact Hp.
    + rewrite H1, H2, Hs. split; [reflexivity | exact Hfr].
Qed.

Lemma step_frame arch now c w p :
  (forall k, p <> mirror (cacheFolder (store w)) k) ->
  cacheFolder (store (step arch now c w).2) = cacheFolder (store w)
  /\ files (disk (step arch now c w).2) !! p = files (disk w) !! p.
Proof.
  intros Hp. destruct c as [key value ttl|key|key| |visit]; cbn [step].
  - pose proof (Set_store arch now key value ttl w) as Hs.
    pose proof (Set_frame arch now key value ttl w p (Hp key)) as Hfr.
    destruct (Set_ _ _ _ _ _ _) as [e w']. cbn [snd] in *. rewrite Hs.
    split; [reflexivity | exact Hfr].
  - rewrite Get_eq. split; reflexivity.
  - pose proof (Delete_store key w) as Hs.
    pose proof (Delete_frame key w p (Hp key)) as Hfr.
    destruct (Delete _ _) as [e w']. cbn [snd] in *. rewrite Hs.
    split; [reflexivity | exact Hfr].
  - rewrite Length_eq. split; reflexivity.
  - pose proof (clean_range_frame now visit w p Hp) as H.
    destruct (clean_range _ _ _); exact H.
Qed.

Lemma run_frame arch calls w p :
  (forall k, p <> mirror (cacheFolder (store w)) k) ->
  cacheFolder (store (run arch calls w).2) = cacheFolder (store w)
  /\ files (disk (run arch calls w).2) !! p = files (disk w) !! p.
Proof.
  revert w. induction calls as [|[now c] calls IH]; intros w Hp; [split; reflexivity|].
  cbn [run]. destruct (step_frame arch now c w p Hp) as [H1 H2].
  destruct (step arch now c w) as [r w']. cbn [snd] in H1, H2.
  destruct (IH w') as [I1 I2]; [rewrite H1; exact Hp|].
  destruct (run arch calls w') as [rs w'']. cbn [snd] in I1, I2.
  destruct r; cbn [snd]; try (rewrite I1, I2, H1, H2; split; reflexivity).
  split; assumption.
Qed.

Lemma init_files_frame arch now entries w p :
  (forall k, p <> mirror (cacheFolder (store w)) k) ->
  cacheFolder (store (init_files arch now entries w).2) = cacheFolder (store w)
  /\ files (disk (init_files arch now entries w).2) !! p = files (disk w) !! p.
Proof.
  revert w. induction entries as [|name entries IH]; intros w Hp; [split; reflexivity|].
  cbn [init_files]. unfold bind.
  destruct (init_file_cases arch now name w) as [Hc|[[e Hc]|(n & ttl & Hc)]]; rewrite Hc.
  - apply IH, Hp.
  - split; reflexivity.
  - pose proof (Set_store arch now (Key n) (Value n) ttl w) as Hs.
    pose proof (Set_frame arch now (Key n) (Value n) ttl w p (Hp (Key n))) as Hfr.
    destruct (IH (Set_ arch now (Key n) (Value n) ttl w).2) as [I1 I2].
    + rewrite Hs. exact Hp.
    + rewrite I1, I2, Hs. split; [reflexivity | exact Hfr].
Qed.

Lemma init_eq arch now w :
  init arch now w
  = if String.eqb (cacheFolder (store w)) "" then (None, w)
    else if decide (cacheFolder (store w) ∈ denied (disk w)) then (Some ErrPermission, w)
    else match os_ReadDir (cacheFolder (store w)) (disk w) with
         | inl e => (Some e, w)
         | inr entries => init_files arch now entries w
         end.
Proof.
  destruct w as [st fs].
  unfold init, bind, os, os_read, os_MkdirAll, gets, ret. cbv beta. cbn [store disk].
  destruct (String.eqb _ _); [reflexivity|].
  destruct (decide _); [reflexivity|]. cbv beta iota. cbn [store disk].
  destruct (os_ReadDir _ _); reflexivity.
Qed.

Lemma NewKeyValueStore_frame arch now folder fs p :
  (forall k, p <> mirror folder k) ->
  cacheFolder (store (final (NewKeyValueStore arch now folder fs))) = folder
  /\ files (disk (final (NewKeyValueStore arch now folder fs))) !! p = files fs !! p.
Proof.
  intros Hp. unfold NewKeyValueStore.
  assert (H : cacheFolder (store (init arch now (mkWorld (mkStore ∅ folder) fs)).2) = folder
              /\ files (disk (init arch now (mkWorld (mkStore ∅ folder) fs)).2) !! p
                 = files fs !! p).
  { rewrite init_eq. cbn [store cacheFolder disk].
    destruct (String.eqb folder ""); [split; reflexivity|].
    destruct (decide _); [split; reflexivity|].
    destruct (os_ReadDir _ _) as [e|entries]; [split; reflexivity|].
    apply (init_files_frame arch now entries (mkWorld (mkStore ∅ folder) fs) p Hp). }
  destruct (init _ _ _) as [[e|] w']; exact H.
Qed.

(** X14.  The store touches no file but its own mirrors: a path that is
    not the mirror path of a key in the cache folder holds after the
    construction, and after any calls and sweeps, what it held before. *)
Theorem only_mirror_files_change
    (arch : Arch) (now : Time) (folder : string) (fs : FS)
    (calls : list (Time * call)) (p : string) :
  (forall k, p <> mirror folder k) ->
  files (disk (run arch calls (final (NewKeyValueStore arch now folder fs))).2) !! p
  = files fs !! p.
Proof.
  intros Hp. destruct (NewKeyValueStore_frame arch now folder fs p Hp) as [H1 H2].
  destruct (run_frame arch calls (final (NewKeyValueStore arch now folder fs)) p) as [_ H3].
  - rewrite H1. exact Hp.
  - rewrite H3. exact H2.
Qed.

Lemma only_mirror_files_change_witness :
  files (disk (run Arch64 [(0, CallSet "k" (Str "v") 100); (1000000, CallDelete "k");
                           (2000000, Sweep ["k"]%string)]
                 (final (NewKeyValueStore Arch64 0 "cache" notes_disk))).2)
    !! "cache/notes.txt"%string
  = Some (json.Garbage "hello").
Proof.
  rewrite (only_mirror_files_change Arch64 0 "cache" notes_disk
             [(0, CallSet "k" (Str "v") 100); (1000000, CallDelete "k");
              (2000000, Sweep ["k"]%string)] "cache/notes.txt").
  - reflexivity.
  - intros k Heq. apply (f_equal String.length) in Heq.
    destruct (mirror_files_shape "cache" k) as (Hm & _ & _ & Hl & _).
    rewrite Hm in Heq. unfold filepath_Join in Heq.
    rewrite !length_append_string, Hl in Heq. discriminate.
Defined.
